(** * Trestle runtime environment and configuration resolution

    A shallow embedding of
      - [packages/trestle/src/internal/core/runtime-env.ts]
        (class [Environment]: constructor, [run], [injectToGlobal],
        [_runTaskDefinition], [_resolveValidTaskArguments],
        [_resolveArgument], [_checkTypeValidation]), and
      - [packages/trestle/src/internal/core/config/config-resolution.ts]
        ([mergeUserAndDefaultConfigs], [resolveConfig], [resolvePathFrom],
        [resolveProjectPaths]),
    followed by the properties of the specification that concern them.

    Conventions of the embedding.
      - A JavaScript value is a term of [value]; an object used as a
        dictionary whose key order is irrelevant (task arguments, the global
        object, the own enumerable properties of the environment, user
        paths) is a [gmap string _]; where enumeration order matters
        (parameter definitions, configuration objects that are spread and
        merged) it is an association list.
      - The dictionaries are plain objects: reading a name that is no own
        property goes on to [Object.prototype] ([jsget]), so that
        [constructor] or [toString] read as the inherited function and every
        other absent name as [VUndefined].  Writing a property creates the
        key, also when the value written is [VUndefined]; the one name that
        assignment cannot create is [__proto__] ([jsset]).
      - A call that may throw returns a [result]; code that reads and writes
        the global object or the environment threads a [State].
      - [await] is sequential composition: the runtime never interleaves two
        task actions, so an awaited call runs to completion before the
        caller continues.  Calls of [debug]'s [log] only write diagnostics
        and are left out. *)

From Stdlib Require Import ZArith.
From stdpp Require Import base option list strings gmap fin_maps.

Open Scope string_scope.
Set Warnings "-register-all".

(** ** JavaScript values *)

Inductive value : Type :=
  | VUndefined
  | VNull
  | VBool (b : bool)
  | VNum (n : Z)
  | VStr (s : string)
  | VArr (items : list value)
  | VObj (fields : list (string * value))
  (* a function object of the host program or of the engine, identified by
     a label *)
  | VFun (label : string)
  (* the [runSuper] function object that [_runTaskDefinition] builds for
     the task named [taskName], with its [isDefined] marker *)
  | VRunSuper (taskName : string) (marker : bool).

(** [v === undefined] *)
Definition is_undefined (v : value) : bool :=
  match v with VUndefined => true | _ => false end.

(** Neither an object nor an array. *)
Definition is_scalar (v : value) : bool :=
  match v with VObj _ | VArr _ => false | _ => true end.

(** [v === undefined || v === null], the test behind [??] *)
Definition is_nullish (v : value) : bool :=
  match v with VUndefined | VNull => true | _ => false end.

(** [!v]: the falsy values among those of [value] *)
Definition is_falsy (v : value) : bool :=
  match v with
  | VUndefined | VNull | VBool false | VStr "" => true
  | VNum n => Z.eqb n 0
  | _ => false
  end.

(** What every plain object inherits: the properties of [Object.prototype]
    as Node defines them, with nothing added to it.  [__proto__] reads as
    the prototype itself, an object without enumerable properties. *)
Definition Object_prototype (k : string) : option value :=
  if String.eqb k "__proto__" then Some (VObj [])
  else if String.eqb k "constructor" then Some (VFun "Object")
  else if existsb (String.eqb k)
            ["__defineGetter__"; "__defineSetter__"; "hasOwnProperty";
             "__lookupGetter__"; "__lookupSetter__"; "isPrototypeOf";
             "propertyIsEnumerable"; "toString"; "valueOf"; "toLocaleString"]
       then Some (VFun ("Object.prototype." ++ k))
  else None.

(** [o[k]] on a plain object: the own property if there is one, else what
    [Object.prototype] has under that name, else [undefined]. *)
Definition jsget (o : gmap string value) (k : string) : value :=
  match o !! k with
  | Some v => v
  | None => default VUndefined (Object_prototype k)
  end.

(** [o[k] = v] on a plain object that has no own [__proto__]: the assignment
    creates or overwrites the own property [k], except for [__proto__],
    where it goes to the inherited setter and leaves the own properties as
    they are. *)
Definition jsset (o : gmap string value) (k : string) (v : value)
    : gmap string value :=
  if String.eqb k "__proto__" then o else <[k := v]> o.

(** ** Thrown values *)

(** The entries of [ERRORS] (core/errors-list) that these two files raise. *)
Inductive ErrorDescriptor : Type :=
  | NETWORK_CONFIG_NOT_FOUND
  | ARGUMENTS_UNRECOGNIZED_TASK
  | ARGUMENTS_MISSING_TASK_ARGUMENT
  | TASK_DEFINITIONS_RUNSUPER_NOT_AVAILABLE.

Inductive error : Type :=
  (* [new TrestleError(descriptor, messageArguments)] *)
  | TrestleError (descriptor : ErrorDescriptor)
                 (messageArguments : list (string * string))
  (* the engine's own [TypeError] *)
  | JsTypeError (message : string)
  (* anything else a validator, an action or an extender throws *)
  | Thrown (payload : value).

Inductive result (A : Type) : Type :=
  | Ok (a : A)
  | Throw (e : error).
Arguments Ok {A} a.
Arguments Throw {A} e.

Definition is_ok {A} (r : result A) : bool :=
  match r with Ok _ => true | Throw _ => false end.

(** ** Parameter definitions *)

Record ArgumentType : Type := {
  (* [validate(argName, argumentValue)] throws on a mismatch *)
  validate : option (string -> value -> result unit)
}.

Record ParamDefinition : Type := {
  name : string;
  description : string;
  defaultValue : value;            (* [VUndefined] when none is declared *)
  type : option ArgumentType;
  isOptional : bool;
  isVariadic : bool
}.

(** A continuation byte of UTF-8 (10xxxxxx). *)
Definition is_continuation (c : Ascii.ascii) : bool :=
  let n := Ascii.nat_of_ascii c in (128 <=? n)%nat && (n <? 192)%nat.

(** The code points of a string held as UTF-8 bytes: each leading byte with
    the continuation bytes that follow it. *)
Fixpoint code_points (s : string) : list string :=
  match s with
  | EmptyString => []
  | String c rest =>
      match code_points rest with
      | String c' first :: others =>
          if is_continuation c' then String c (String c' first) :: others
          else String c EmptyString :: String c' first :: others
      | others => String c EmptyString :: others
      end
  end.

(** [for (const value of container)]: arrays yield their elements and strings
    their code points; the other values of [value] are not iterable. *)
Definition string_chars (s : string) : list value :=
  VStr <$> code_points s.

Definition iterate (container : value) : result (list value) :=
  match container with
  | VArr items => Ok items
  | VStr s => Ok (string_chars s)
  | _ => Throw (JsTypeError "argumentValueContainer is not iterable")
  end.

(** The body of the [for ... of] loop of [_checkTypeValidation]: the first
    throwing call ends the loop. *)
Fixpoint validate_each (check : string -> value -> result unit)
    (paramName : string) (vs : list value) : result unit :=
  match vs with
  | [] => Ok tt
  | v :: rest =>
      match check paramName v with
      | Ok _ => validate_each check paramName rest
      | Throw e => Throw e
      end
  end.

Definition _checkTypeValidation (paramDefinition : ParamDefinition)
    (argumentValue : value) : result unit :=
  match type paramDefinition with
  | None => Ok tt
  | Some ty =>
      match validate ty with
      | None => Ok tt
      | Some check =>
          let argumentValueContainer :=
            if isVariadic paramDefinition then argumentValue
            else VArr [argumentValue] in
          match iterate argumentValueContainer with
          | Ok vs => validate_each check (name paramDefinition) vs
          | Throw e => Throw e
          end
      end
  end.

Definition _resolveArgument (paramDefinition : ParamDefinition)
    (argumentValue : value) : result value :=
  if is_undefined argumentValue then
    if isOptional paramDefinition then Ok (defaultValue paramDefinition)
    else Throw (TrestleError ARGUMENTS_MISSING_TASK_ARGUMENT
                  [("param", name paramDefinition)])
  else
    match _checkTypeValidation paramDefinition argumentValue with
    | Ok _ => Ok argumentValue
    | Throw e => Throw e
    end.

(** ** Tasks, actions and the ambient state *)

(** What a task action can read and write besides its arguments: the
    process-wide global object, and the environment object it is handed
    ([this] of [_runTaskDefinition]), seen through its own enumerable
    properties, which is all [injectToGlobal] looks at.  Both are shared by
    reference with the runtime: an action may assign to and delete
    properties of either, and returns the state it leaves.  Assignment
    cannot give an object an own property named [__proto__]; neither object
    is taken to have one. *)
Record State : Type := {
  global : gmap string value;
  this : gmap string value
}.

Definition M (A : Type) : Type := State -> result A * State.

Definition set_global (key : string) (v : value) (st : State) : State :=
  {| global := <[key := v]> (global st); this := this st |}.

(** [runSuper]: a callable with an [isDefined] marker.  [call None] is a
    call without argument (or with [undefined]), for which the default
    parameter value applies. *)
Record RunSuperFunction : Type := {
  call : option (gmap string value) -> M value;
  isDefined : bool
}.

(** [action(taskArguments, env, runSuper)]; [env] is the [this] of [State]. *)
Definition ActionType : Type :=
  gmap string value -> RunSuperFunction -> M value.

Record TaskFields : Type := {
  taskName : string;
  taskDescription : string;
  (* [paramDefinitions] in the enumeration order of [Object.values] *)
  paramDefinitions : list (string * ParamDefinition);
  positionalParamDefinitions : list ParamDefinition;
  action : ActionType
}.

(** [taskDefinition instanceof OverriddenTaskDefinition] is the constructor
    test. *)
Inductive TaskDefinition : Type :=
  | SimpleTaskDefinition (fields : TaskFields)
  | OverriddenTaskDefinition (fields : TaskFields)
                             (parentTaskDefinition : TaskDefinition).

Definition fieldsOf (taskDefinition : TaskDefinition) : TaskFields :=
  match taskDefinition with
  | SimpleTaskDefinition f => f
  | OverriddenTaskDefinition f _ => f
  end.

(** ** Argument resolution *)

Record ResolvedArguments : Type := {
  errors : list error;
  values : gmap string value
}.

(** The callback of [allTaskParamDefinitions.reduce]. *)
Definition resolveStep (taskArguments : gmap string value)
    (acc : ResolvedArguments) (paramDefinition : ParamDefinition)
    : ResolvedArguments :=
  let paramName := name paramDefinition in
  let argumentValue := jsget taskArguments paramName in
  match _resolveArgument paramDefinition argumentValue with
  | Ok resolvedArgumentValue =>
      if is_undefined resolvedArgumentValue then acc
      else {| errors := errors acc;
              values := jsset (values acc) paramName resolvedArgumentValue |}
  | Throw e =>
      {| errors := errors acc ++ [e]; values := values acc |}
  end.

Definition allTaskParamDefinitions (taskDefinition : TaskDefinition)
    : list ParamDefinition :=
  (snd <$> paramDefinitions (fieldsOf taskDefinition))
    ++ positionalParamDefinitions (fieldsOf taskDefinition).

Definition initResolvedArguments : ResolvedArguments :=
  {| errors := []; values := ∅ |}.

Definition resolvedArguments (taskDefinition : TaskDefinition)
    (taskArguments : gmap string value) : ResolvedArguments :=
  foldl (resolveStep taskArguments) initResolvedArguments
        (allTaskParamDefinitions taskDefinition).

Definition _resolveValidTaskArguments (taskDefinition : TaskDefinition)
    (taskArguments : gmap string value) : result (gmap string value) :=
  let r := resolvedArguments taskDefinition taskArguments in
  match errors r with
  | first :: _ => Throw first
  | [] => Ok (values r ∪ taskArguments)   (* {...taskArguments, ...values} *)
  end.

(** ** Ambient exposure *)

Definition _BLACKLISTED_PROPERTIES : list string :=
  ["injectToGlobal"; "_runTaskDefinition"].

Definition includes (blacklist : list string) (key : string) : bool :=
  existsb (String.eqb key) blacklist.

(** One round of the first loop of [injectToGlobal], on the pair
    ([previousValues], global object). *)
Definition injectEntry (blacklist : list string)
    (acc : gmap string value * gmap string value) (entry : string * value)
    : gmap string value * gmap string value :=
  if includes blacklist entry.1 then acc
  else (<[entry.1 := jsget acc.2 entry.1]> acc.1, <[entry.1 := entry.2]> acc.2).

(** One round of the loop of the returned function. *)
Definition restoreEntry (blacklist : list string)
    (previousValues : gmap string value) (g : gmap string value)
    (entry : string * value) : gmap string value :=
  if includes blacklist entry.1 then g
  else <[entry.1 := jsget previousValues entry.1]> g.

(** The function [injectToGlobal] returns.  It closes over [blacklist] and
    [previousValues], and enumerates [this] again when it is called. *)
Definition restorePrevious (blacklist : list string)
    (previousValues : gmap string value) (st : State) : State :=
  {| global := foldl (restoreEntry blacklist previousValues) (global st)
                     (map_to_list (this st));
     this := this st |}.

Definition injectToGlobal (blacklist : list string) (st : State)
    : (State -> State) * State :=
  let r := foldl (injectEntry blacklist) (∅, global st)
                 (map_to_list (this st)) in
  (restorePrevious blacklist r.1, {| global := r.2; this := this st |}).

(** ** Running a task definition *)

Definition runSuperNotAvailable (taskDefinition : TaskDefinition) : M value :=
  fun st =>
    (Throw (TrestleError TASK_DEFINITIONS_RUNSUPER_NOT_AVAILABLE
              [("taskName", taskName (fieldsOf taskDefinition))]), st).

(** [try { return await action(...) } finally { ... }] around the injection. *)
Definition withAmbient (taskDefinition : TaskDefinition)
    (runSuper : RunSuperFunction) (body : M value) : M value :=
  fun st =>
    let previousRunSuper := jsget (global st) "runSuper" in
    let st1 :=
      set_global "runSuper"
        (VRunSuper (taskName (fieldsOf taskDefinition)) (isDefined runSuper))
        st in
    let injected := injectToGlobal _BLACKLISTED_PROPERTIES st1 in
    let uninjectFromGlobal := injected.1 in
    let ran := body injected.2 in
    (ran.1, set_global "runSuper" previousRunSuper (uninjectFromGlobal ran.2)).

Fixpoint _runTaskDefinition (taskDefinition : TaskDefinition)
    (taskArguments : gmap string value) {struct taskDefinition} : M value :=
  let runSuper : RunSuperFunction :=
    match taskDefinition with
    | OverriddenTaskDefinition _ parentTaskDefinition =>
        {| call := fun _taskArguments =>
             _runTaskDefinition parentTaskDefinition
               (default taskArguments _taskArguments);
           isDefined := true |}
    | SimpleTaskDefinition _ =>
        {| call := fun _ => runSuperNotAvailable taskDefinition;
           isDefined := false |}
    end in
  withAmbient taskDefinition runSuper
    (action (fieldsOf taskDefinition) taskArguments runSuper).

(** The [runSuper] that [_runTaskDefinition] hands to the action. *)
Definition runSuperFunction (taskDefinition : TaskDefinition)
    (taskArguments : gmap string value) : RunSuperFunction :=
  match taskDefinition with
  | OverriddenTaskDefinition _ parentTaskDefinition =>
      {| call := fun _taskArguments =>
           _runTaskDefinition parentTaskDefinition
             (default taskArguments _taskArguments);
         isDefined := true |}
  | SimpleTaskDefinition _ =>
      {| call := fun _ => runSuperNotAvailable taskDefinition;
         isDefined := false |}
  end.

(** [tasks[name]] on the task map, a plain object: a registered definition,
    else a value that every object inherits under that name, else
    [undefined] ([None]). *)
Inductive TaskEntry : Type :=
  | RegisteredTask (taskDefinition : TaskDefinition)
  | InheritedValue (v : value).

Definition taskEntryOf (tasks : gmap string TaskDefinition) (name : string)
    : option TaskEntry :=
  match tasks !! name with
  | Some taskDefinition => Some (RegisteredTask taskDefinition)
  | None => InheritedValue <$> Object_prototype name
  end.

(** [Environment.run], over the task map of the environment.  An inherited
    value is not [undefined], so the code goes on to resolve the arguments
    against it: it has no [paramDefinitions], and [Object.values(undefined)]
    throws a TypeError. *)
Definition run (tasks : gmap string TaskDefinition) (taskName : string)
    (taskArguments : option (gmap string value)) : M value :=
  fun st =>
    match taskEntryOf tasks taskName with
    | None =>
        (Throw (TrestleError ARGUMENTS_UNRECOGNIZED_TASK [("task", taskName)]),
         st)
    | Some (InheritedValue _) =>
        (Throw (JsTypeError "Cannot convert undefined or null to object"), st)
    | Some (RegisteredTask taskDefinition) =>
        match _resolveValidTaskArguments taskDefinition
                (default ∅ taskArguments) with
        | Throw e => (Throw e, st)
        | Ok resolvedTaskArguments =>
            _runTaskDefinition taskDefinition resolvedTaskArguments st
        end
    end.

(** ** Constructing the environment *)

Module RuntimeArgs.

Record t : Type := {
  network : string;
  showStackTraces : bool;
  version : bool;
  help : bool;
  verbose : bool
}.

End RuntimeArgs.

Module Network.

Record t : Type := {
  name : string;
  config : value       (* [NetworkConfig], or [VUndefined] *)
}.

End Network.

(** [ResolvedConfig] at its declared type, with the fields the environment
    reads. *)
Record ResolvedConfig : Type := {
  networks : gmap string value;
  paths : option (gmap string string)
}.

(** The interface [TrestleRuntimeEnvironment] an extender is handed;
    [extensions] holds the properties extenders add to the object. *)
Record TrestleRuntimeEnvironment : Type := {
  config : ResolvedConfig;
  runtimeArgs : RuntimeArgs.t;
  tasks : gmap string TaskDefinition;
  network : Network.t;
  extensions : gmap string value
}.

(** An extender mutates the environment it is given, or throws. *)
Definition EnvironmentExtender : Type :=
  TrestleRuntimeEnvironment -> result TrestleRuntimeEnvironment.

Record Environment : Type := {
  env : TrestleRuntimeEnvironment;
  _extenders : list EnvironmentExtender
}.

(** [extenders.forEach((extender) => extender(this))] *)
Fixpoint forEachExtender (extenders : list EnvironmentExtender)
    (self : TrestleRuntimeEnvironment) : result TrestleRuntimeEnvironment :=
  match extenders with
  | [] => Ok self
  | extender :: rest =>
      match extender self with
      | Ok self' => forEachExtender rest self'
      | Throw e => Throw e
      end
  end.

(** The object as the constructor has set it when the extenders start. *)
Definition coreFields (config : ResolvedConfig) (runtimeArgs : RuntimeArgs.t)
    (tasks : gmap string TaskDefinition) : TrestleRuntimeEnvironment :=
  {| config := config;
     runtimeArgs := runtimeArgs;
     tasks := tasks;
     network :=
       {| Network.name := RuntimeArgs.network runtimeArgs;
          Network.config :=
            jsget (networks config) (RuntimeArgs.network runtimeArgs) |};
     extensions := ∅ |}.

(** [new Environment(config, runtimeArgs, tasks, extenders, networkRequired)];
    [None] for an omitted argument. *)
Definition newEnvironment (config : ResolvedConfig)
    (runtimeArgs : RuntimeArgs.t) (tasks : gmap string TaskDefinition)
    (extenders : option (list EnvironmentExtender))
    (networkRequired : option bool) : result Environment :=
  let extenders := default [] extenders in
  let networkRequired := default true networkRequired in
  let ncfg := jsget (networks config) (RuntimeArgs.network runtimeArgs) in
  if is_falsy ncfg && networkRequired then
    Throw (TrestleError NETWORK_CONFIG_NOT_FOUND
             [("network", RuntimeArgs.network runtimeArgs)])
  else
    match forEachExtender extenders (coreFields config runtimeArgs tasks) with
    | Ok self => Ok {| env := self; _extenders := extenders |}
    | Throw e => Throw e
    end.

(** ** Configuration objects *)

(** A configuration is an object whose properties are enumerated, spread
    and merged, so it is kept as the list of its properties in enumeration
    order, each key once. *)
Fixpoint obj_lookup (o : list (string * value)) (k : string) : option value :=
  match o with
  | [] => None
  | (k', v) :: rest => if String.eqb k' k then Some v else obj_lookup rest k
  end.

Definition obj_get (o : list (string * value)) (k : string) : value :=
  default VUndefined (obj_lookup o k).

(** [o[k] = v]: an existing key keeps its place, a new key goes last. *)
Fixpoint obj_set (o : list (string * value)) (k : string) (v : value)
    : list (string * value) :=
  match o with
  | [] => [(k, v)]
  | (k', v') :: rest =>
      if String.eqb k' k then (k, v) :: rest else (k', v') :: obj_set rest k v
  end.

(** [{...v}]: the own enumerable properties of an object. *)
Definition own_properties (v : value) : list (string * value) :=
  match v with VObj fields => fields | _ => [] end.

(** Modelled from the spec: the [deepmerge] package that
    [mergeUserAndDefaultConfigs] imports is not part of these sources.  Two
    objects merge key by key: the destination starts as the target, and each
    key of the source is set to the merge of the two values when the target
    has the key, and to the source's value otherwise.  Two arrays are handed
    to the [arrayMerge] option and its result is kept.  In every other case
    the source wins. *)
Definition mergeObject (mergeKey : string -> value -> value)
    : list (string * value) -> list (string * value) -> list (string * value) :=
  fix go (destination source : list (string * value)) :=
    match source with
    | [] => destination
    | (key, sv) :: rest => go (obj_set destination key (mergeKey key sv)) rest
    end.

(** Modelled from the spec: [deepmerge(target, source, { arrayMerge })] of
    the package of that name, as described above. *)
Fixpoint deepmerge (arrayMerge : list value -> list value -> list value)
    (target source : value) {struct source} : value :=
  match source with
  | VArr s =>
      match target with
      | VArr t => VArr (arrayMerge t s)
      | _ => source
      end
  | VObj s =>
      match target with
      | VObj t =>
          VObj (mergeObject
                  (fun key sv =>
                     match obj_lookup t key with
                     | Some tv => deepmerge arrayMerge tv sv
                     | None => sv
                     end) t s)
      | _ => source
      end
  | _ => source
  end.

Definition mergeUserAndDefaultConfigs (defaultConfig userConfig : value)
    : value :=
  deepmerge (fun destination source => source) defaultConfig userConfig.

(** ** Project paths *)

(** Node's [path] module, of which the code uses three functions. *)
Class PathModule : Type := {
  path_isAbsolute : string -> bool;
  path_join : string -> string -> string;
  path_dirname : string -> string
}.

(** [resolvePathFrom(from, defaultPath, relativeOrAbsolutePath = defaultPath)] *)
Definition resolvePathFrom `{PathModule} (from defaultPath : string)
    (relativeOrAbsolutePath : option string) : string :=
  let relativeOrAbsolutePath := default defaultPath relativeOrAbsolutePath in
  if path_isAbsolute relativeOrAbsolutePath then relativeOrAbsolutePath
  else path_join from relativeOrAbsolutePath.

(** [fromEntries] of util/lang: the object with the given entries, a later
    entry replacing an earlier one with the same key. *)
Definition fromEntries (entries : list (string * string))
    : gmap string string :=
  foldl (fun o entry => <[entry.1 := entry.2]> o) ∅ entries.

(** [userPaths] is read at the type [StrMap] the source casts it to. *)
Definition resolveProjectPaths `{PathModule} (userConfigPath : string)
    (userPaths : option (gmap string string)) : gmap string string :=
  let userPaths := default ∅ userPaths in
  let configDir := path_dirname userConfigPath in
  let root := resolvePathFrom configDir "" (userPaths !! "root") in
  let otherPathsEntries :=
    (fun entry => (entry.1, resolvePathFrom root entry.2 None))
      <$> map_to_list userPaths in
  let otherPaths := fromEntries otherPathsEntries in
  <["tests" := resolvePathFrom root "test" (userPaths !! "tests")]>
  (<["artifacts" := resolvePathFrom root "artifacts" (userPaths !! "artifacts")]>
  (<["cache" := resolvePathFrom root "cache" (userPaths !! "cache")]>
  (<["sources" := resolvePathFrom root "contracts" (userPaths !! "sources")]>
  (<["configFile" := userConfigPath]>
  (<["root" := root]> otherPaths))))).

(** ** Resolving the configuration *)

(** [userConfig.paths] at its declared type [UserPaths | undefined]: the
    string-valued properties of the object, if there is one.
    [declaredPathsTyped] says that the user configuration is an object whose
    [paths] has that type; on other inputs the code throws a TypeError or
    enumerates entries of another kind where this reading goes on. *)
Definition stringEntry (entry : string * value) : option (string * string) :=
  match entry.2 with VStr s => Some (entry.1, s) | _ => None end.

Definition userPathsOf (userConfig : value) : option (gmap string string) :=
  match obj_get (own_properties userConfig) "paths" with
  | VObj fields => Some (fromEntries (omap stringEntry fields))
  | _ => None
  end.

Definition declaredPathsTyped (userConfig : value) : bool :=
  match userConfig with
  | VObj fields =>
      match obj_get fields "paths" with
      | VUndefined => true
      | VObj entries =>
          forallb (fun entry => match entry.2 with
                                | VStr _ => true
                                | _ => false
                                end) entries
      | _ => false
      end
  | _ => false
  end.

(** The names of the user's paths, in the order the user's object
    enumerates them. *)
Definition userPathKeys (userConfig : value) : list string :=
  match obj_get (own_properties userConfig) "paths" with
  | VObj fields => (omap stringEntry fields).*1
  | _ => []
  end.

Definition fixedPathKeys : list string :=
  ["root"; "configFile"; "sources"; "cache"; "artifacts"; "tests"].

(** The resolved paths as the object the code builds,
    [{ ...otherPaths, root, configFile, sources, cache, artifacts, tests }]:
    the user's names in the user's order, a name among them keeping its
    place, then the fixed names that the user does not declare. *)
Definition pathsValue (userKeys : list string) (paths : gmap string string)
    : value :=
  VObj (omap (fun k => (fun p => (k, VStr p)) <$> paths !! k)
             (userKeys
                ++ filter (fun k => includes userKeys k = false)
                          fixedPathKeys)%list).

(** A config extender mutates the resolved object it is given, or throws. *)
Definition ConfigExtender : Type :=
  list (string * value) -> value -> result (list (string * value)).

Fixpoint forEachConfigExtender (configExtenders : list ConfigExtender)
    (resolved : list (string * value)) (userConfig : value)
    : result (list (string * value)) :=
  match configExtenders with
  | [] => Ok resolved
  | extender :: rest =>
      match extender resolved userConfig with
      | Ok resolved' => forEachConfigExtender rest resolved' userConfig
      | Throw e => Throw e
      end
  end.

(** The object literal [{ ...config, paths, networks: config.networks ?? {} }]. *)
Definition resolvedLiteral (config : value) (paths : value)
    : list (string * value) :=
  let networks := obj_get (own_properties config) "networks" in
  obj_set (obj_set (own_properties config) "paths" paths)
          "networks" (if is_nullish networks then VObj [] else networks).

Definition resolveConfig `{PathModule} (userConfigPath : option string)
    (defaultConfig userConfig : value)
    (configExtenders : list ConfigExtender) : result (list (string * value)) :=
  let config := mergeUserAndDefaultConfigs defaultConfig userConfig in
  let paths :=
    match userConfigPath with
    | Some userConfigPath =>
        pathsValue (userPathKeys userConfig)
          (resolveProjectPaths userConfigPath (userPathsOf userConfig))
    | None => VUndefined
    end in
  forEachConfigExtender configExtenders (resolvedLiteral config paths)
                        userConfig.

(** ** The command line entry point

    [printErrRecur], [printStackTraces] and [loadEnvironmentAndArgs] of the
    command line module (internal/cli). *)

(** An error object as the printing functions see it: whether it is an
    instance of [TrestleError], and its [parent], if it has one. *)
Inductive ErrorObject : Type :=
  | MkErrorObject (isTrestleError : bool) (message : string)
                  (parent : option ErrorObject).

Definition instanceofTrestleError (e : ErrorObject) : bool :=
  match e with MkErrorObject b _ _ => b end.

Definition parentOf (e : ErrorObject) : option ErrorObject :=
  match e with MkErrorObject _ _ p => p end.

(** What [console.error] is called with. *)
Inductive ConsoleLine : Type :=
  | LineText (text : string)
  | LineObject (e : ErrorObject).

(** [printErrRecur(error)], as the lines it writes. *)
Fixpoint printErrRecur (error : ErrorObject) : list ConsoleLine :=
  match error with
  | MkErrorObject _ _ None => []
  | MkErrorObject _ _ (Some parent) =>
      if instanceofTrestleError parent then printErrRecur parent
      else [LineObject parent]
  end.

(** The chain of parents of an error object, nearest first. *)
Fixpoint ancestors (error : ErrorObject) : list ErrorObject :=
  match error with
  | MkErrorObject _ _ None => []
  | MkErrorObject _ _ (Some parent) => parent :: ancestors parent
  end.

Definition TRESTLE_NAME : string := "trestle".

(** [printStackTraces(showStackTraces, error)]; [None] is [undefined]. *)
Definition printStackTraces (showStackTraces : bool)
    (error : option ErrorObject) : list ConsoleLine :=
  match error with
  | None => []
  | Some error =>
      if showStackTraces then printErrRecur error
      else [LineText ("For more info run " ++ TRESTLE_NAME ++
                      " with --show-stack-traces or add --help to display task-specific help.")]
  end.

(** What [loadEnvironmentAndArgs] throws: an error of the core, or
    [ERRORS.GENERAL.NOT_INSIDE_PROJECT] with its [task] argument. *)
Inductive CliError : Type :=
  | CoreError (e : error)
  | GENERAL_NOT_INSIDE_PROJECT (task : string).

Inductive CliResult (A : Type) : Type :=
  | CliOk (a : A)
  | CliThrow (e : CliError).
Arguments CliOk {A} a.
Arguments CliThrow {A} e.

(** What creating the context and loading the configuration and the tasks
    leaves to read: the configuration, the registered environment extenders
    and the task definitions. *)
Record Loaded : Type := {
  loadedConfig : ResolvedConfig;
  envExtenders : list EnvironmentExtender;
  taskDefinitions : gmap string TaskDefinition
}.

(** The collaborators of [loadEnvironmentAndArgs] that are not part of
    these sources. *)
Class CliCollaborators : Type := {
  TASK_HELP : string;
  isSetupTask : string -> bool;
  isCwdInsideProject : bool;
  (* [TrestleContext.createTrestleContext()], [loadConfigAndTasks] and the
     two getters of the context *)
  loadConfigAndTasks : RuntimeArgs.t -> result Loaded;
  (* [argumentsParser.parseTaskArguments] *)
  parseTaskArguments :
    TaskDefinition -> list string -> result (gmap string value);
  (* the same, handed an inherited value in place of a task definition *)
  parseInheritedTaskArguments :
    value -> list string -> result (gmap string value)
}.

Record EnvAndArgs : Type := {
  ea_env : Environment;
  ea_taskName : string;
  ea_taskArguments : gmap string value
}.

(** [loadEnvironmentAndArgs(maybeTaskName, runtimeArgs, argumentsParser,
    unparsedCLAs)].  Registering the environment in the context
    ([ctx.setRuntimeEnv]) is not part of what it returns. *)
Definition loadEnvironmentAndArgs `{CliCollaborators}
    (maybeTaskName : option string) (runtimeArgs : RuntimeArgs.t)
    (unparsedCLAs : list string) : CliResult EnvAndArgs :=
  match loadConfigAndTasks runtimeArgs with
  | Throw e => CliThrow (CoreError e)
  | Ok loaded =>
      let taskName := default TASK_HELP maybeTaskName in
      match taskEntryOf (taskDefinitions loaded) taskName with
      | None =>
          CliThrow (CoreError (TrestleError ARGUMENTS_UNRECOGNIZED_TASK
                                 [("task", taskName)]))
      | Some entry =>
          let origTaskName := taskName in
          let parsed :=
            if RuntimeArgs.help runtimeArgs
               && negb (String.eqb taskName TASK_HELP)
            then Ok ({["task" := VStr taskName]}, TASK_HELP)
            else match match entry with
                       | RegisteredTask taskDefinition =>
                           parseTaskArguments taskDefinition unparsedCLAs
                       | InheritedValue v =>
                           parseInheritedTaskArguments v unparsedCLAs
                       end with
                 | Ok taskArguments => Ok (taskArguments, taskName)
                 | Throw e => Throw e
                 end in
          match parsed with
          | Throw e => CliThrow (CoreError e)
          | Ok (taskArguments, taskName) =>
              let isSetup := isSetupTask taskName in
              if negb isSetup && negb isCwdInsideProject then
                CliThrow (GENERAL_NOT_INSIDE_PROJECT origTaskName)
              else
                match newEnvironment (loadedConfig loaded) runtimeArgs
                        (taskDefinitions loaded)
                        (Some (envExtenders loaded))
                        (Some (negb isSetup)) with
                | Throw e => CliThrow (CoreError e)
                | Ok env =>
                    CliOk {| ea_env := env; ea_taskName := taskName;
                             ea_taskArguments := taskArguments |}
                end
          end
      end
  end.

(** ** Statement vocabulary for argument resolution *)

(** What resolving [paramDefinition] against [taskArguments] throws, if it
    throws. *)
Definition errorOf (taskArguments : gmap string value)
    (paramDefinition : ParamDefinition) : option error :=
  match _resolveArgument paramDefinition
          (jsget taskArguments (name paramDefinition)) with
  | Ok _ => None
  | Throw e => Some e
  end.

(** What a parameter that resolves adds to the resolved values. *)
Definition valueStep (taskArguments : gmap string value)
    (resolved : gmap string value) (paramDefinition : ParamDefinition)
    : gmap string value :=
  match _resolveArgument paramDefinition
          (jsget taskArguments (name paramDefinition)) with
  | Ok v => if is_undefined v then resolved
            else jsset resolved (name paramDefinition) v
  | Throw _ => resolved
  end.

(** ** Statement vocabulary for running a task *)

(** The state in which [_runTaskDefinition] starts the action: [runSuper]
    published, then the environment injected. *)
Definition duringAction (taskDefinition : TaskDefinition)
    (taskArguments : gmap string value) (st : State) : State :=
  (injectToGlobal _BLACKLISTED_PROPERTIES
     (set_global "runSuper"
        (VRunSuper (taskName (fieldsOf taskDefinition))
                   (isDefined (runSuperFunction taskDefinition taskArguments)))
        st)).2.

(** What the action of [taskDefinition] returns or throws, and the state it
    leaves, when [_runTaskDefinition] runs it from [st]. *)
Definition actionRun (taskDefinition : TaskDefinition)
    (taskArguments : gmap string value) (st : State) : result value * State :=
  action (fieldsOf taskDefinition) taskArguments
    (runSuperFunction taskDefinition taskArguments)
    (duringAction taskDefinition taskArguments st).

(** ** Sample inputs

    Small task definitions and states on which the properties below are
    evaluated. *)

Definition mkParam (n : string) (d : value) (optional : bool)
    : ParamDefinition :=
  {| name := n; description := ""; defaultValue := d; type := None;
     isOptional := optional; isVariadic := false |}.

Definition returnUndefined : ActionType :=
  fun _ _ st => (Ok VUndefined, st).

Definition mkTask (n : string) (named : list (string * ParamDefinition))
    (positional : list ParamDefinition) (act : ActionType) : TaskFields :=
  {| taskName := n; taskDescription := ""; paramDefinitions := named;
     positionalParamDefinitions := positional; action := act |}.

(** An optional parameter that declares no default. *)
Definition optionalNoDefault : ParamDefinition :=
  mkParam "tag" VUndefined true.

Definition taskWithOptionalNoDefault : TaskDefinition :=
  SimpleTaskDefinition
    (mkTask "build" [("tag", optionalNoDefault)] [] returnUndefined).

(** A task with a defaulted option, a required positional parameter and an
    optional one without default. *)
Definition greetingParam : ParamDefinition :=
  mkParam "greeting" (VStr "hello") true.

Definition whoParam : ParamDefinition := mkParam "who" VUndefined false.

Definition greetTask : TaskDefinition :=
  SimpleTaskDefinition
    (mkTask "greet"
       [("greeting", greetingParam); ("tag", optionalNoDefault)]
       [whoParam] returnUndefined).

(** A task that declares one name twice, as an option and as a positional
    parameter, with different defaults. *)
Definition sameNameTask : TaskDefinition :=
  SimpleTaskDefinition
    (mkTask "deploy" [("tag", mkParam "tag" (VStr "named") true)]
       [mkParam "tag" (VStr "positional") true] returnUndefined).

(** An override that returns what [runSuper()] returns, under a label. *)
Definition wrapSuper (label : string) : ActionType :=
  fun _ runSuper st =>
    let r := call runSuper None st in
    match r.1 with
    | Ok v => (Ok (VArr [VStr label; v]), r.2)
    | Throw e => (Throw e, r.2)
    end.

Definition reportArgument : ActionType :=
  fun taskArguments _ st =>
    (Ok (VArr [VStr "original"; jsget taskArguments "x"]), st).

Definition delegationChain : TaskDefinition :=
  OverriddenTaskDefinition (mkTask "compile" [] [] (wrapSuper "outer"))
    (OverriddenTaskDefinition (mkTask "compile" [] [] (wrapSuper "middle"))
       (SimpleTaskDefinition (mkTask "compile" [] [] reportArgument))).

(** An environment with its core properties, and a global object that
    already binds two names. *)
Definition sampleState : State :=
  {| global := {["config" := VStr "previous"; "deployer" := VStr "keep"]};
     this := {["config" := VObj []; "network" := VObj [("name", VStr "dev")];
              "run" := VFun "run"]} |}.

(** An action that gives the environment a property it did not have, and
    one that removes a property from it. *)
Definition addsProperty : ActionType :=
  fun _ _ st =>
    (Ok VUndefined,
     {| global := global st;
        this := <["deployer" := VFun "deployer"]> (this st) |}).

Definition removesProperty : ActionType :=
  fun _ _ st =>
    (Ok VUndefined,
     {| global := global st; this := delete "network" (this st) |}).

(** A configuration without networks, and runtime arguments that select
    a network. *)
Definition noNetworksConfig : ResolvedConfig :=
  {| networks := ∅; paths := None |}.

Definition defaultNetworkArgs : RuntimeArgs.t :=
  {| RuntimeArgs.network := "default"; RuntimeArgs.showStackTraces := false;
     RuntimeArgs.version := false; RuntimeArgs.help := false;
     RuntimeArgs.verbose := false |}.

(** Extenders: one that adds a property, one that throws. *)
Definition addExtension (key : string) (v : value)
    (self : TrestleRuntimeEnvironment) : TrestleRuntimeEnvironment :=
  {| config := config self; runtimeArgs := runtimeArgs self;
     tasks := tasks self; network := network self;
     extensions := <[key := v]> (extensions self) |}.

Definition throwingExtender : EnvironmentExtender :=
  fun _ => Throw (Thrown (VStr "plugin failed")).

(** The configurations of the specification's merge example. *)
Definition exampleDefaultConfig : list (string * value) :=
  [("a", VNum 1); ("list", VArr [VNum 1; VNum 2])].

Definition exampleUserConfig : list (string * value) :=
  [("list", VArr [VNum 3])].



(** A plain instance of the path functions for the examples: a path is
    absolute when it starts with a slash, joining puts a slash between two
    non-empty parts, and the directory of a path is what precedes its last
    slash (character 47).  Nothing is normalised. *)
Fixpoint beforeLastSlash (s : string) : option string :=
  match s with
  | EmptyString => None
  | String c rest =>
      match beforeLastSlash rest with
      | Some d => Some (String c d)
      | None => if Ascii.eqb c (Ascii.ascii_of_nat 47) then Some EmptyString else None
      end
  end.

Definition plainPaths : PathModule :=
  {| path_isAbsolute s :=
       match s with String c _ => Ascii.eqb c (Ascii.ascii_of_nat 47) | EmptyString => false end;
     path_join a b :=
       if String.eqb b "" then a else if String.eqb a "" then b
       else a ++ "/" ++ b;
     path_dirname s :=
       match beforeLastSlash s with
       | None => "."
       | Some EmptyString => "/"
       | Some d => d
       end |}.

(** A validator that accepts strings only, and a variadic parameter that
    uses it. *)
Definition stringsOnly : string -> value -> result unit :=
  fun paramName v =>
    match v with
    | VStr _ => Ok tt
    | _ => Throw (Thrown (VStr paramName))
    end.

Definition filesParam : ParamDefinition :=
  {| name := "files"; description := ""; defaultValue := VArr [];
     type := Some {| validate := Some stringsOnly |};
     isOptional := true; isVariadic := true |}.

(** An optional parameter whose default its own validator rejects. *)
Definition retriesParam : ParamDefinition :=
  {| name := "retries"; description := ""; defaultValue := VNum 3;
     type := Some {| validate := Some stringsOnly |};
     isOptional := true; isVariadic := false |}.

Definition optionalsTask : TaskDefinition :=
  SimpleTaskDefinition
    (mkTask "lint" [("retries", retriesParam); ("tag", optionalNoDefault)]
       [filesParam] returnUndefined).

(** [greetTask] with its parameters declared the other way round. *)
Definition greetTaskReordered : TaskDefinition :=
  SimpleTaskDefinition
    (mkTask "greet"
       [("tag", optionalNoDefault); ("greeting", greetingParam)]
       [whoParam] returnUndefined).

(** An action that returns what it reads under two global names. *)
Definition observeGlobals : ActionType :=
  fun _ _ st =>
    (Ok (VArr [jsget (global st) "network"; jsget (global st) "runSuper"]),
     st).

Definition observeTask : TaskDefinition :=
  SimpleTaskDefinition (mkTask "observe" [] [] observeGlobals).

(** An action that overwrites a global name of its own and throws. *)
Definition scribbleAndThrow : ActionType :=
  fun _ _ st =>
    (Throw (Thrown (VStr "failed")),
     {| global := <["config" := VNull]> (<["scratch" := VNum 1]> (global st));
        this := this st |}).

Definition scribbleTask : TaskDefinition :=
  SimpleTaskDefinition (mkTask "scribble" [] [] scribbleAndThrow).

(** A configuration with an entry for the selected network. *)
Definition devNetworkConfig : ResolvedConfig :=
  {| networks := {["default" := VObj [("endpoint", VStr "http://dev")]]};
     paths := None |}.


(** Collaborators for the command line examples: outside a project, with
    a [help] and a [greet] task and no network configured. *)
Definition outsideProject : CliCollaborators :=
  {| TASK_HELP := "help";
     isSetupTask n := String.eqb n "help" || String.eqb n "init";
     isCwdInsideProject := false;
     loadConfigAndTasks _ :=
       Ok {| loadedConfig := noNetworksConfig; envExtenders := [];
             taskDefinitions :=
               {["help" := SimpleTaskDefinition
                             (mkTask "help" [] [] returnUndefined);
                 "greet" := greetTask]} |};
     parseTaskArguments _ _ := Ok ∅;
     parseInheritedTaskArguments _ _ :=
       Throw (JsTypeError "not a task definition") |}.

Definition helpRequested : RuntimeArgs.t :=
  {| RuntimeArgs.network := "default"; RuntimeArgs.showStackTraces := false;
     RuntimeArgs.version := false; RuntimeArgs.help := true;
     RuntimeArgs.verbose := false |}.

(** A framework error wrapping a framework error wrapping a foreign one
    that has a parent of its own. *)
Definition wrappedError : ErrorObject :=
  MkErrorObject true "task failed"
    (Some (MkErrorObject true "compile failed"
       (Some (MkErrorObject false "ENOENT"
          (Some (MkErrorObject false "syscall" None)))))).

(** A task whose first parameter is handed to a validator and whose second
    is required. *)
Definition labelParam : ParamDefinition :=
  {| name := "label"; description := ""; defaultValue := VUndefined;
     type := Some {| validate := Some stringsOnly |};
     isOptional := true; isVariadic := false |}.

Definition labelThenWhoTask : TaskDefinition :=
  SimpleTaskDefinition
    (mkTask "tag" [("label", labelParam)] [whoParam] returnUndefined).

(** An action that gives the environment a property named as one that
    every object inherits. *)
Definition addsToString : ActionType :=
  fun _ _ st =>
    (Ok VUndefined,
     {| global := global st;
        this := <["toString" := VFun "describe"]> (this st) |}).

(** A user configuration that declares two paths. *)
Definition userConfigWithPaths : value :=
  VObj [("paths", VObj [("deploy", VStr "out"); ("root", VStr "sub")]);
        ("timeout", VNum 5)].

(** * Properties *)

(** ** Reading and writing plain objects *)

Lemma jsget_own (o : gmap string value) k v :
  o !! k = Some v -> jsget o k = v.
Proof. unfold jsget. by intros ->. Qed.

Lemma jsget_ext (o o' : gmap string value) k :
  o !! k = o' !! k -> jsget o k = jsget o' k.
Proof. unfold jsget. by intros ->. Qed.

Lemma jsset_lookup_eq (o : gmap string value) k v :
  k <> "__proto__" -> jsset o k v !! k = Some v.
Proof.
  intros Hk. unfold jsset. apply String.eqb_neq in Hk as ->.
  apply lookup_insert_eq.
Qed.

Lemma jsset_lookup_ne (o : gmap string value) k k' v :
  k <> k' -> jsset o k v !! k' = o !! k'.
Proof.
  intros Hne. unfold jsset. destruct (String.eqb k "__proto__"); [done|].
  by apply lookup_insert_ne.
Qed.

Lemma jsset_proto (o : gmap string value) v : jsset o "__proto__" v = o.
Proof. reflexivity. Qed.

(** ** Argument resolution *)

Section ArgumentResolution.

Variable taskArguments : gmap string value.

Lemma resolveArgument_present paramDefinition v r :
  is_undefined v = false ->
  _resolveArgument paramDefinition v = Ok r -> r = v.
Proof.
  unfold _resolveArgument. intros ->.
  destruct (_checkTypeValidation paramDefinition v); congruence.
Qed.

Lemma resolveArgument_absent paramDefinition v r :
  is_undefined v = true ->
  _resolveArgument paramDefinition v = Ok r ->
  isOptional paramDefinition = true /\ r = defaultValue paramDefinition.
Proof.
  unfold _resolveArgument. intros ->.
  destruct (isOptional paramDefinition); [split; congruence | discriminate].
Qed.

(** One step of the reduction keeps the two components of its accumulator
    apart. *)
Lemma resolveStep_split acc p :
  resolveStep taskArguments acc p =
  {| errors := errors acc ++ option_list (errorOf taskArguments p);
     values := valueStep taskArguments (values acc) p |}.
Proof.
  destruct acc as [errs vals]. unfold resolveStep, errorOf, valueStep.
  destruct (_resolveArgument p (jsget taskArguments (name p))) as [v|e];
    simpl; [|done].
  rewrite app_nil_r. by destruct (is_undefined v).
Qed.

(** So the reduction yields the errors of the throwing parameters, in
    order, and the values of the others. *)
Lemma foldl_resolveStep l acc :
  foldl (resolveStep taskArguments) acc l =
  {| errors := errors acc ++ omap (errorOf taskArguments) l;
     values := foldl (valueStep taskArguments) (values acc) l |}.
Proof.
  revert acc. induction l as [|p l IH]; intros acc.
  - destruct acc. simpl. by rewrite app_nil_r.
  - cbn [foldl]. rewrite IH, resolveStep_split. cbn [errors values omap list_omap].
    f_equal. rewrite <- app_assoc. f_equal.
    by destruct (errorOf taskArguments p).
Qed.

Lemma valueStep_other resolved p k :
  name p <> k -> valueStep taskArguments resolved p !! k = resolved !! k.
Proof.
  intros Hne. unfold valueStep.
  destruct (_resolveArgument p _) as [v|e]; [|done].
  destruct (is_undefined v); [done|]. by rewrite jsset_lookup_ne.
Qed.

Lemma foldl_valueStep_other l resolved k :
  k ∉ name <$> l ->
  foldl (valueStep taskArguments) resolved l !! k = resolved !! k.
Proof.
  revert resolved. induction l as [|p l IH]; intros resolved Hk; [done|].
  simpl in *. apply not_elem_of_cons in Hk as [Hne Hk].
  rewrite IH by done. by apply valueStep_other.
Qed.

(** With distinct names, a parameter's key holds its own resolved value. *)
Lemma foldl_valueStep_own l resolved p v :
  name p <> "__proto__" ->
  NoDup (name <$> l) -> p ∈ l ->
  _resolveArgument p (jsget taskArguments (name p)) = Ok v ->
  foldl (valueStep taskArguments) resolved l !! name p =
  if is_undefined v then resolved !! name p else Some v.
Proof.
  intros Hproto.
  revert resolved. induction l as [|q l IH]; intros resolved Hnd Hin Hv.
  - by apply elem_of_nil in Hin.
  - simpl in *. apply NoDup_cons in Hnd as [Hq Hnd].
    apply elem_of_cons in Hin as [<-|Hin].
    + rewrite foldl_valueStep_other by done.
      unfold valueStep. rewrite Hv.
      destruct (is_undefined v); [done|]. by rewrite jsset_lookup_eq.
    + rewrite IH by done.
      destruct (is_undefined v); [|done].
      apply valueStep_other. intros Heq. apply Hq. rewrite Heq.
      by apply list_elem_of_fmap_2.
Qed.

(** A provided value reaches its key whatever else is declared, as long as
    nothing throws. *)
Lemma foldl_valueStep_provided l resolved k :
  k <> "__proto__" ->
  is_undefined (jsget taskArguments k) = false ->
  omap (errorOf taskArguments) l = [] ->
  resolved !! k = Some (jsget taskArguments k) \/ k ∈ name <$> l ->
  foldl (valueStep taskArguments) resolved l !! k =
  Some (jsget taskArguments k).
Proof.
  intros Hproto Hdef. revert resolved.
  induction l as [|q l IH]; intros resolved Herr Hk; simpl in *.
  - destruct Hk as [Hk|Hk]; [done|]. by apply elem_of_nil in Hk.
  - unfold errorOf in Herr at 1.
    destruct (_resolveArgument q (jsget taskArguments (name q)))
      as [v|e] eqn:Hq; [|discriminate].
    apply IH; [done|].
    destruct (decide (name q = k)) as [Heq|Hne].
    + left. unfold valueStep. rewrite Hq. subst k.
      apply resolveArgument_present in Hq as ->; [|done].
      rewrite Hdef. by rewrite jsset_lookup_eq.
    + rewrite valueStep_other by done.
      destruct Hk as [Hk|Hk]; [by left|right].
      apply elem_of_cons in Hk as [Hk|Hk]; [congruence|done].
Qed.

End ArgumentResolution.

Lemma resolveValidTaskArguments_split taskDefinition taskArguments :
  let all := allTaskParamDefinitions taskDefinition in
  let r := resolvedArguments taskDefinition taskArguments in
  errors r = omap (errorOf taskArguments) all /\
  values r = foldl (valueStep taskArguments) ∅ all /\
  _resolveValidTaskArguments taskDefinition taskArguments =
    match omap (errorOf taskArguments) all with
    | first :: _ => Throw first
    | [] => Ok (values r ∪ taskArguments)
    end.
Proof.
  intros all r. subst r. unfold _resolveValidTaskArguments, resolvedArguments.
  rewrite foldl_resolveStep. by cbn.
Qed.

Lemma omap_errorOf_nil taskArguments l :
  omap (errorOf taskArguments) l = [] <->
  forall p, p ∈ l -> errorOf taskArguments p = None.
Proof.
  induction l as [|q l IH]; simpl.
  - split; [|done]. intros _ p Hp. by apply elem_of_nil in Hp.
  - destruct (errorOf taskArguments q) as [e|] eqn:Hq.
    + split; [done|]. intros Hall.
      specialize (Hall q (list_elem_of_here _ _)). congruence.
    + rewrite IH. split.
      * intros Hall p [->|Hp]%elem_of_cons; auto.
      * intros Hall p Hp. apply Hall. by apply list_elem_of_further.
Qed.

Lemma resolveValidTaskArguments_Ok taskDefinition taskArguments resolved :
  _resolveValidTaskArguments taskDefinition taskArguments = Ok resolved <->
  omap (errorOf taskArguments) (allTaskParamDefinitions taskDefinition) = [] /\
  resolved =
    foldl (valueStep taskArguments) ∅ (allTaskParamDefinitions taskDefinition)
      ∪ taskArguments.
Proof.
  destruct (resolveValidTaskArguments_split taskDefinition taskArguments)
    as (_ & Hvals & ->). rewrite Hvals.
  destruct (omap _ _); split.
  - by intros [= <-].
  - by intros [_ ->].
  - discriminate.
  - by intros [? _].
Qed.

(** C6: every error met while resolving the parameters of a task is
    collected, in the processing order of the parameter definitions, and the
    parameters after a throwing one are still processed (their errors are
    collected and their values recorded); the first collected error is the
    one raised, and nothing is raised when none was collected. *)
Theorem resolveValidTaskArguments_first_error taskDefinition taskArguments :
  let all := allTaskParamDefinitions taskDefinition in
  let r := resolvedArguments taskDefinition taskArguments in
  errors r = omap (errorOf taskArguments) all /\
  values r = foldl (valueStep taskArguments) ∅ all /\
  _resolveValidTaskArguments taskDefinition taskArguments =
    match omap (errorOf taskArguments) all with
    | first :: _ => Throw first
    | [] => Ok (values r ∪ taskArguments)
    end.
Proof.
  intros all r. subst all r.
  unfold _resolveValidTaskArguments, resolvedArguments.
  rewrite foldl_resolveStep.
  cbn [errors values initResolvedArguments app].
  repeat split.
Qed.

(** The claim as it is worded for C7 fails at the level of a raw argument
    mapping when a parameter processed earlier throws: the required
    parameter [who] is absent, and what the resolution raises is the
    validator's error for [label]. *)
Lemma resolveValidTaskArguments_earlier_error :
  isOptional whoParam = false /\
  whoParam ∈ allTaskParamDefinitions labelThenWhoTask /\
  is_undefined (jsget {["label" := VNum 1]} (name whoParam)) = true /\
  _resolveValidTaskArguments labelThenWhoTask {["label" := VNum 1]} =
    Throw (Thrown (VStr "label")).
Proof.
  split; [reflexivity|]. split; [|split; reflexivity].
  apply list_elem_of_further, list_elem_of_here.
Qed.

(** C7 (amended): resolving a parameter that is not optional against an
    absent value throws MISSING_TASK_ARGUMENT with the parameter's name.
    Resolving the arguments of a task that declares such a parameter, when
    reading its name from the raw arguments gives [undefined], fails, that
    error being among the collected ones; it is the error raised when no
    parameter processed before it throws. *)
Theorem resolveArgument_missing paramDefinition :
  isOptional paramDefinition = false ->
  let missing :=
    TrestleError ARGUMENTS_MISSING_TASK_ARGUMENT
      [("param", name paramDefinition)] in
  _resolveArgument paramDefinition VUndefined = Throw missing /\
  forall taskDefinition taskArguments,
    paramDefinition ∈ allTaskParamDefinitions taskDefinition ->
    is_undefined (jsget taskArguments (name paramDefinition)) = true ->
    missing ∈ errors (resolvedArguments taskDefinition taskArguments) /\
    is_ok (_resolveValidTaskArguments taskDefinition taskArguments) = false /\
    forall before after,
      allTaskParamDefinitions taskDefinition
        = (before ++ paramDefinition :: after)%list ->
      (forall q, q ∈ before ->
         is_ok (_resolveArgument q (jsget taskArguments (name q))) = true) ->
      _resolveValidTaskArguments taskDefinition taskArguments = Throw missing.
Proof.
  intros Hreq missing. split.
  { unfold _resolveArgument. simpl. by rewrite Hreq. }
  intros taskDefinition taskArguments Hin Habsent.
  assert (Hp : errorOf taskArguments paramDefinition = Some missing).
  { unfold errorOf, _resolveArgument. by rewrite Habsent, Hreq. }
  assert (Herr : missing ∈ omap (errorOf taskArguments)
                               (allTaskParamDefinitions taskDefinition)).
  { apply list_elem_of_omap. by exists paramDefinition. }
  destruct (resolveValidTaskArguments_split taskDefinition taskArguments)
    as (He & _ & Hres).
  rewrite He, Hres. split; [done|]. split.
  { destruct (omap _ _); [by apply elem_of_nil in Herr | done]. }
  intros before after -> Hbefore.
  rewrite omap_app. cbn [omap list_omap]. rewrite Hp.
  assert (omap (errorOf taskArguments) before = []) as ->; [|done].
  apply omap_errorOf_nil. intros q Hq. specialize (Hbefore q Hq).
  unfold errorOf. by destruct (_resolveArgument q _).
Qed.

Lemma resolveArgument_missing_witness :
  _resolveArgument whoParam VUndefined =
    Throw (TrestleError ARGUMENTS_MISSING_TASK_ARGUMENT [("param", "who")]) /\
  _resolveValidTaskArguments greetTask ∅ =
    Throw (TrestleError ARGUMENTS_MISSING_TASK_ARGUMENT [("param", "who")]).
Proof.
  destruct (resolveArgument_missing whoParam eq_refl) as [H1 H2].
  split; [exact H1|].
  destruct (H2 greetTask ∅) as (_ & _ & Hfirst); [|reflexivity|].
  { do 2 apply list_elem_of_further. apply list_elem_of_here. }
  apply (Hfirst [greetingParam; optionalNoDefault] []); [reflexivity|].
  intros q Hq.
  repeat (apply elem_of_cons in Hq as [->|Hq]; [reflexivity|]).
  by apply elem_of_nil in Hq.
Defined.

(** The claim as it is worded for C1 fails on an optional parameter that
    declares no default: with no raw arguments the resolution succeeds and
    the parameter is not a key of the result. *)
Lemma resolveValidTaskArguments_optional_absent :
  optionalNoDefault ∈ allTaskParamDefinitions taskWithOptionalNoDefault /\
  _resolveValidTaskArguments taskWithOptionalNoDefault ∅ = Ok ∅ /\
  (∅ : gmap string value) !! name optionalNoDefault = None.
Proof.
  split; [apply list_elem_of_here|]. split; reflexivity.
Qed.

(** Two declarations of one name share a key: the later default is the one
    the key ends up with. *)
Lemma resolveValidTaskArguments_same_name :
  _resolveValidTaskArguments sameNameTask ∅ =
  Ok {["tag" := VStr "positional"]}.
Proof. reflexivity. Qed.

(** C1 (amended): the resolution of a task's arguments yields a mapping
    exactly when every declared parameter resolves on its own.  Whenever it
    does, for every declared parameter whose name is not [__proto__]: if
    reading its name from the raw arguments gives a value other than
    [undefined], that value passed validation and the parameter is a key of
    the result, bound to it; if the read gives [undefined], the parameter
    is optional and, the declared names being distinct, it is a key bound
    to exactly its default if it declares one, while without a declared
    default its key is left as the raw arguments have it. *)
Theorem resolveValidTaskArguments_declared taskDefinition taskArguments :
  (is_ok (_resolveValidTaskArguments taskDefinition taskArguments) = true <->
   forall p, p ∈ allTaskParamDefinitions taskDefinition ->
     is_ok (_resolveArgument p (jsget taskArguments (name p))) = true) /\
  forall resolved paramDefinition,
    _resolveValidTaskArguments taskDefinition taskArguments = Ok resolved ->
    paramDefinition ∈ allTaskParamDefinitions taskDefinition ->
    let provided := jsget taskArguments (name paramDefinition) in
    (is_undefined provided = false ->
       _checkTypeValidation paramDefinition provided = Ok tt /\
       (name paramDefinition <> "__proto__" ->
        resolved !! name paramDefinition = Some provided)) /\
    (is_undefined provided = true ->
       isOptional paramDefinition = true /\
       (name paramDefinition <> "__proto__" ->
        NoDup (name <$> allTaskParamDefinitions taskDefinition) ->
        resolved !! name paramDefinition =
          if is_undefined (defaultValue paramDefinition)
          then taskArguments !! name paramDefinition
          else Some (defaultValue paramDefinition))).
Proof.
  assert (Hone : forall p,
    errorOf taskArguments p = None <->
    is_ok (_resolveArgument p (jsget taskArguments (name p))) = true).
  { intros p. unfold errorOf. by destruct (_resolveArgument p _). }
  split.
  { destruct (resolveValidTaskArguments_split taskDefinition taskArguments)
      as (_ & _ & ->).
    destruct (omap _ _) as [|e rest] eqn:Hnone; simpl.
    - split; [|done]. intros _ p Hp. apply Hone.
      by apply (proj1 (omap_errorOf_nil _ _) Hnone).
    - split; [done|]. intros Hall.
      assert (omap (errorOf taskArguments)
                (allTaskParamDefinitions taskDefinition) = []) as Habs.
      { apply omap_errorOf_nil. intros p Hp. by apply Hone, Hall. }
      congruence. }
  intros resolved paramDefinition
    [Hnone ->]%resolveValidTaskArguments_Ok Hin provided.
  assert (Hp : errorOf taskArguments paramDefinition = None)
    by by apply (proj1 (omap_errorOf_nil _ _) Hnone).
  unfold errorOf in Hp. fold provided in Hp.
  destruct (_resolveArgument paramDefinition provided) as [v|] eqn:Hv;
    [clear Hp|discriminate].
  split.
  - intros Hdef. split.
    + revert Hv. unfold _resolveArgument. rewrite Hdef.
      by destruct (_checkTypeValidation paramDefinition provided) as [[]|].
    + intros Hproto.
      rewrite lookup_union_l'; [|eexists]; apply foldl_valueStep_provided;
        auto using list_elem_of_fmap_2.
  - intros Habsent.
    apply resolveArgument_absent in Hv as Hv'; [|done].
    destruct Hv' as [Hopt ->]. split; [done|]. intros Hproto Hnd.
    rewrite lookup_union, (foldl_valueStep_own _ _ _ _ _ Hproto Hnd Hin Hv).
    destruct (is_undefined (defaultValue paramDefinition)).
    + by rewrite lookup_empty, (left_id_L None _).
    + by destruct (taskArguments !! name paramDefinition).
Qed.

Lemma resolveValidTaskArguments_declared_witness :
  let resolved : gmap string value :=
    <["greeting" := VStr "hello"]> {["who" := VStr "world"]} in
  (resolved !! "greeting" = Some (VStr "hello")) /\
  (resolved !! "who" = Some (VStr "world")).
Proof.
  intros resolved.
  assert (Hres : _resolveValidTaskArguments greetTask
                   {["who" := VStr "world"]} = Ok resolved) by reflexivity.
  split.
  - refine (proj2 (proj2 (proj2 (resolveValidTaskArguments_declared
              greetTask {["who" := VStr "world"]}) resolved greetingParam
              Hres _) eq_refl) _ _).
    + apply list_elem_of_here.
    + discriminate.
    + change (NoDup ["greeting"; "tag"; "who"]).
      apply (bool_decide_unpack _). vm_compute. exact I.
  - refine (proj2 (proj1 (proj2 (resolveValidTaskArguments_declared
              greetTask {["who" := VStr "world"]}) resolved whoParam
              Hres _) eq_refl) _).
    + do 2 apply list_elem_of_further. apply list_elem_of_here.
    + discriminate.
Defined.

(** Names that every object inherits are not absent: a required parameter
    named [constructor] resolves, with no raw argument of that name, to the
    inherited function. *)
Lemma resolveArgument_inherited_name :
  _resolveValidTaskArguments
    (SimpleTaskDefinition
       (mkTask "make" [] [mkParam "constructor" VUndefined false]
          returnUndefined)) ∅
  = Ok {["constructor" := VFun "Object"]}.
Proof. reflexivity. Qed.

(** ** Running a task definition *)

Lemma runTaskDefinition_unfold taskDefinition taskArguments :
  _runTaskDefinition taskDefinition taskArguments =
  withAmbient taskDefinition (runSuperFunction taskDefinition taskArguments)
    (action (fieldsOf taskDefinition) taskArguments
            (runSuperFunction taskDefinition taskArguments)).
Proof. by destruct taskDefinition. Qed.

(** The [finally] block changes the state only: the outcome of the run is
    the outcome of the action, started in the injected state. *)
Lemma withAmbient_outcome taskDefinition runSuper body st :
  (withAmbient taskDefinition runSuper body st).1 =
  (body (injectToGlobal _BLACKLISTED_PROPERTIES
           (set_global "runSuper"
              (VRunSuper (taskName (fieldsOf taskDefinition))
                         (isDefined runSuper)) st)).2).1.
Proof. reflexivity. Qed.

(** C8: the [runSuper] handed to the action of a task definition that is
    not an override has its [isDefined] marker false and, whatever it is
    called with and in whatever state, throws RUNSUPER_NOT_AVAILABLE with
    the task's name, leaving the state as it is; the [runSuper] of an
    overridden task definition has the marker true. *)
Theorem runSuper_of_base_task fields taskArguments :
  let taskDefinition := SimpleTaskDefinition fields in
  let runSuper := runSuperFunction taskDefinition taskArguments in
  _runTaskDefinition taskDefinition taskArguments =
    withAmbient taskDefinition runSuper
      (action fields taskArguments runSuper) /\
  isDefined runSuper = false /\
  (forall _taskArguments st,
     call runSuper _taskArguments st =
     (Throw (TrestleError TASK_DEFINITIONS_RUNSUPER_NOT_AVAILABLE
               [("taskName", taskName fields)]), st)) /\
  (forall fields' parentTaskDefinition taskArguments',
     isDefined (runSuperFunction
                  (OverriddenTaskDefinition fields' parentTaskDefinition)
                  taskArguments') = true).
Proof. repeat split. Qed.

(** C3: for a task overridden twice, the action of the outermost override
    receives a [runSuper] that runs the middle override, whose action in
    turn receives a [runSuper] that runs the original definition; each
    passes on the arguments it is called with and, called without, the
    arguments its own action received; each run returns what the action it
    runs returns. *)
Theorem runSuper_delegation_order
    outer middle (original : TaskDefinition) taskArguments :
  let middleDefinition := OverriddenTaskDefinition middle original in
  let outerDefinition := OverriddenTaskDefinition outer middleDefinition in
  let runSuper := runSuperFunction outerDefinition taskArguments in
  _runTaskDefinition outerDefinition taskArguments =
    withAmbient outerDefinition runSuper
      (action outer taskArguments runSuper) /\
  isDefined runSuper = true /\
  (forall _taskArguments,
     let passed := default taskArguments _taskArguments in
     let runSuper' := runSuperFunction middleDefinition passed in
     call runSuper _taskArguments =
       withAmbient middleDefinition runSuper'
         (action middle passed runSuper') /\
     isDefined runSuper' = true /\
     forall _taskArguments',
       let passed' := default passed _taskArguments' in
       let runSuper'' := runSuperFunction original passed' in
       call runSuper' _taskArguments' =
         withAmbient original runSuper''
           (action (fieldsOf original) passed' runSuper'')) /\
  (forall taskDefinition runSuper0 body st,
     (withAmbient taskDefinition runSuper0 body st).1 =
     (body (injectToGlobal _BLACKLISTED_PROPERTIES
              (set_global "runSuper"
                 (VRunSuper (taskName (fieldsOf taskDefinition))
                            (isDefined runSuper0)) st)).2).1).
Proof.
  intros middleDefinition outerDefinition runSuper.
  split; [reflexivity|]. split; [reflexivity|]. split; [|reflexivity].
  intros _taskArguments passed runSuper'.
  split; [reflexivity|]. split; [reflexivity|].
  intros _taskArguments' passed' runSuper''.
  apply runTaskDefinition_unfold.
Qed.

(** The chain at work: two overrides that wrap what [runSuper()] returns,
    over an original that reports the argument it received. *)
Lemma runSuper_delegation_example :
  (_runTaskDefinition delegationChain {["x" := VNum 7]} sampleState).1 =
  Ok (VArr [VStr "outer";
            VArr [VStr "middle"; VArr [VStr "original"; VNum 7]]]).
Proof. reflexivity. Qed.

(** Probing and calling [runSuper] in a task that overrides nothing. *)
Lemma runSuper_of_base_task_example :
  let probing : TaskDefinition :=
    SimpleTaskDefinition (mkTask "clean" [] [] (wrapSuper "only")) in
  (_runTaskDefinition probing ∅ sampleState).1 =
  Throw (TrestleError TASK_DEFINITIONS_RUNSUPER_NOT_AVAILABLE
           [("taskName", "clean")]).
Proof. reflexivity. Qed.

(** ** Ambient exposure *)

Section Ambient.

Variable blacklist : list string.

Lemma injectEntry_previous_other acc entry k :
  entry.1 <> k -> (injectEntry blacklist acc entry).1 !! k = acc.1 !! k.
Proof.
  intros Hne. unfold injectEntry.
  destruct (includes blacklist entry.1); [done|]. simpl.
  by rewrite lookup_insert_ne.
Qed.

Lemma injectEntry_global_other acc entry k :
  entry.1 <> k -> (injectEntry blacklist acc entry).2 !! k = acc.2 !! k.
Proof.
  intros Hne. unfold injectEntry.
  destruct (includes blacklist entry.1); [done|]. simpl.
  by rewrite lookup_insert_ne.
Qed.

Lemma foldl_injectEntry_previous_other l acc k :
  k ∉ l.*1 ->
  (foldl (injectEntry blacklist) acc l).1 !! k = acc.1 !! k.
Proof.
  revert acc. induction l as [|entry l IH]; intros acc Hk; [done|].
  simpl in *. apply not_elem_of_cons in Hk as [Hne Hk].
  rewrite IH by done. by apply injectEntry_previous_other.
Qed.

(** The first loop records, for each key it injects, what the global object
    held before the loop started. *)
Lemma foldl_injectEntry_previous l acc k :
  NoDup l.*1 -> k ∈ l.*1 -> includes blacklist k = false ->
  (foldl (injectEntry blacklist) acc l).1 !! k = Some (jsget acc.2 k).
Proof.
  revert acc. induction l as [|entry l IH]; intros acc Hnd Hk Hbl.
  - by apply elem_of_nil in Hk.
  - simpl in *. apply NoDup_cons in Hnd as [Hfresh Hnd].
    destruct (decide (entry.1 = k)) as [Heq|Hne].
    + subst k. rewrite foldl_injectEntry_previous_other by done.
      unfold injectEntry. rewrite Hbl. simpl. by rewrite lookup_insert_eq.
    + apply elem_of_cons in Hk as [Hk|Hk]; [congruence|].
      rewrite IH by done. unfold jsget.
      by rewrite injectEntry_global_other.
Qed.

(** The loop of the returned function writes the recorded value to each key
    it enumerates, and to no other. *)
Lemma foldl_restoreEntry previousValues l g k :
  foldl (restoreEntry blacklist previousValues) g l !! k =
  if bool_decide (k ∈ l.*1) && negb (includes blacklist k)
  then Some (jsget previousValues k) else g !! k.
Proof.
  revert g. induction l as [|entry l IH]; intros g; [done|].
  cbn [foldl]. rewrite IH, fmap_cons. unfold restoreEntry.
  destruct (decide (entry.1 = k)) as [Heq|Hne].
  - subst k.
    rewrite (bool_decide_eq_true_2 (entry.1 ∈ entry.1 :: l.*1))
      by apply list_elem_of_here.
    destruct (includes blacklist entry.1) eqn:Hbl; simpl.
    + by rewrite andb_false_r.
    + rewrite andb_true_r, lookup_insert_eq.
      by destruct (bool_decide (entry.1 ∈ l.*1)).
  - assert (Hiff : bool_decide (k ∈ entry.1 :: l.*1) = bool_decide (k ∈ l.*1)).
    { apply bool_decide_ext. rewrite elem_of_cons.
      split; [intros [?|?]; [congruence|done] | by right]. }
    rewrite Hiff.
    destruct (bool_decide (k ∈ l.*1) && negb (includes blacklist k)); [done|].
    destruct (includes blacklist entry.1); [done|].
    by rewrite lookup_insert_ne.
Qed.

End Ambient.

Lemma elem_of_keys_map_to_list (m : gmap string value) k :
  k ∈ (map_to_list m).*1 <-> k ∈ dom m.
Proof.
  rewrite elem_of_dom, list_elem_of_fmap. split.
  - intros ([k' v] & -> & Hin). apply elem_of_map_to_list in Hin. by eexists.
  - intros [v Hv]. exists (k, v). split; [done|].
    by apply elem_of_map_to_list.
Qed.

(** Where it holds: if the run leaves the environment with the property
    names it had, every injected name, and [runSuper], reads after the run
    as it did before, whether the action returned or threw. *)
Lemma withAmbient_restores taskDefinition runSuper body st k :
  let after := (withAmbient taskDefinition runSuper body st).2 in
  dom (this after) = dom (this st) ->
  (k ∈ dom (this st) /\ includes _BLACKLISTED_PROPERTIES k = false)
    \/ k = "runSuper" ->
  jsget (global after) k = jsget (global st) k.
Proof.
  intros after Hdom Hk. subst after. unfold withAmbient, injectToGlobal in *.
  cbn [fst snd] in *.
  set (st1 := set_global "runSuper" _ st) in *.
  set (inj := foldl _ _ _) in *.
  set (ran := body _) in *.
  change (dom (this ran.2) = dom (this st)) in Hdom.
  change (jsget (<["runSuper" := jsget (global st) "runSuper"]>
            (foldl (restoreEntry _BLACKLISTED_PROPERTIES inj.1)
               (global ran.2) (map_to_list (this ran.2)))) k
          = jsget (global st) k).
  unfold jsget at 1.
  destruct (decide (k = "runSuper")) as [->|Hne].
  { by rewrite lookup_insert_eq. }
  destruct Hk as [[Hin Hbl]|?]; [|done].
  rewrite lookup_insert_ne, foldl_restoreEntry, Hbl by done.
  rewrite bool_decide_eq_true_2
    by (apply elem_of_keys_map_to_list; by rewrite Hdom).
  cbn [andb negb default]. unfold jsget at 1. subst inj.
  rewrite foldl_injectEntry_previous;
    [|apply NoDup_fst_map_to_list|by apply elem_of_keys_map_to_list|done].
  cbn [snd default]. unfold jsget, st1. cbn [global set_global].
  by rewrite lookup_insert_ne.
Qed.

Lemma runTaskDefinition_restores taskDefinition taskArguments st k :
  let after := (_runTaskDefinition taskDefinition taskArguments st).2 in
  dom (this after) = dom (this st) ->
  (k ∈ dom (this st) /\ includes _BLACKLISTED_PROPERTIES k = false)
    \/ k = "runSuper" ->
  jsget (global after) k = jsget (global st) k.
Proof.
  rewrite runTaskDefinition_unfold. apply withAmbient_restores.
Qed.

(** C2: the restore enumerates the environment anew instead of the keys it
    recorded.  A task whose action gives the environment a property it did
    not have when the injection ran makes the restore write [undefined]
    over a global name that was never injected; a task whose action removes
    a property leaves the injected value of that name in the global object
    after the run. *)
Theorem runTaskDefinition_restore_other_keys :
  let adding := SimpleTaskDefinition (mkTask "add" [] [] addsProperty) in
  let removing := SimpleTaskDefinition (mkTask "rm" [] [] removesProperty) in
  let afterAdding := (_runTaskDefinition adding ∅ sampleState).2 in
  let afterRemoving := (_runTaskDefinition removing ∅ sampleState).2 in
  (this sampleState !! "deployer" = None /\
   global sampleState !! "deployer" = Some (VStr "keep") /\
   global afterAdding !! "deployer" = Some VUndefined) /\
  (this sampleState !! "network" = Some (VObj [("name", VStr "dev")]) /\
   global sampleState !! "network" = None /\
   global afterRemoving !! "network" = Some (VObj [("name", VStr "dev")])) /\
  (global afterAdding !! "config" = Some (VStr "previous") /\
   global afterRemoving !! "config" = Some (VStr "previous")).
Proof. repeat split; vm_compute; reflexivity. Qed.

(** ** Constructing the environment *)

(** Extenders that return run one after the other, each on what the one
    before it left. *)
Lemma forEachExtender_total
    (mutators : list (TrestleRuntimeEnvironment -> TrestleRuntimeEnvironment))
    self :
  forEachExtender ((fun f self => Ok (f self)) <$> mutators) self =
  Ok (foldl (fun self f => f self) self mutators).
Proof.
  revert self. induction mutators as [|f mutators IH]; intros self; [done|].
  simpl. apply IH.
Qed.

(** Without [networkRequired] the constructor throws only what an extender
    throws, whether the network has an entry or not. *)
Lemma newEnvironment_not_required config runtimeArgs tasks extenders :
  newEnvironment config runtimeArgs tasks (Some extenders) (Some false) =
  match forEachExtender extenders (coreFields config runtimeArgs tasks) with
  | Ok self => Ok {| env := self; _extenders := extenders |}
  | Throw e => Throw e
  end.
Proof.
  unfold newEnvironment. unfold default, from_option, id.
  by rewrite andb_false_r.
Qed.

(** The claim as it is worded for C10 fails when an extender throws: with
    [networkRequired = false] and no entry for the network, construction
    does not complete, and the extender after the throwing one is not
    invoked. *)
Lemma newEnvironment_extender_throws :
  networks noNetworksConfig !! RuntimeArgs.network defaultNetworkArgs = None /\
  newEnvironment noNetworksConfig defaultNetworkArgs ∅
    (Some [throwingExtender;
           fun self => Ok (addExtension "provider" (VFun "provider") self)])
    (Some false)
  = Throw (Thrown (VStr "plugin failed")).
Proof. split; reflexivity. Qed.

(** C10 (amended): when reading the selected network's name from
    [config.networks] gives [undefined] (the name is no entry, and no name
    that every object inherits) and [networkRequired] is false, the network
    check does not throw: the construction sets [network] to the selected
    name with an undefined configuration and hands the environment to the
    extenders in list order, so that it completes, with every extender
    applied, if no extender throws, and otherwise fails as the first
    throwing extender does.  When [networkRequired] is true (or omitted),
    the constructor throws NETWORK_CONFIG_NOT_FOUND whatever the extenders
    are. *)
Theorem newEnvironment_missing_network config runtimeArgs tasks
    (mutators : list (TrestleRuntimeEnvironment -> TrestleRuntimeEnvironment)) :
  jsget (networks config) (RuntimeArgs.network runtimeArgs) = VUndefined ->
  let extenders := (fun f self => Ok (f self)) <$> mutators in
  let self :=
    {| config := config; runtimeArgs := runtimeArgs; tasks := tasks;
       network := {| Network.name := RuntimeArgs.network runtimeArgs;
                     Network.config := VUndefined |};
       extensions := ∅ |} in
  newEnvironment config runtimeArgs tasks (Some extenders) (Some false) =
    Ok {| env := foldl (fun self f => f self) self mutators;
          _extenders := extenders |} /\
  (forall anyExtenders,
     newEnvironment config runtimeArgs tasks (Some anyExtenders) (Some false)
     = match forEachExtender anyExtenders self with
       | Ok self' => Ok {| env := self'; _extenders := anyExtenders |}
       | Throw e => Throw e
       end) /\
  (forall anyExtenders networkRequired,
     networkRequired = Some true \/ networkRequired = None ->
     newEnvironment config runtimeArgs tasks anyExtenders networkRequired =
     Throw (TrestleError NETWORK_CONFIG_NOT_FOUND
              [("network", RuntimeArgs.network runtimeArgs)])).
Proof.
  intros Hmissing extenders self.
  assert (Hself : coreFields config runtimeArgs tasks = self).
  { unfold coreFields, self. by rewrite Hmissing. }
  unfold newEnvironment. rewrite Hself, Hmissing.
  unfold default, from_option, id. cbn [is_falsy andb].
  repeat split.
  - unfold extenders. by rewrite forEachExtender_total.
  - by intros anyExtenders networkRequired [->| ->].
Qed.

Lemma newEnvironment_missing_network_witness :
  newEnvironment noNetworksConfig defaultNetworkArgs ∅
    (Some [fun self => Ok (addExtension "provider" (VFun "provider") self);
           fun self => Ok (addExtension "signer" (VFun "signer") self)])
    (Some false)
  = Ok {| env :=
            {| config := noNetworksConfig; runtimeArgs := defaultNetworkArgs;
               tasks := ∅;
               network := {| Network.name := "default";
                             Network.config := VUndefined |};
               extensions := {["provider" := VFun "provider";
                               "signer" := VFun "signer"]} |};
          _extenders :=
            [fun self => Ok (addExtension "provider" (VFun "provider") self);
             fun self => Ok (addExtension "signer" (VFun "signer") self)] |}.
Proof.
  exact (proj1 (newEnvironment_missing_network noNetworksConfig
                  defaultNetworkArgs ∅
                  [addExtension "provider" (VFun "provider");
                   addExtension "signer" (VFun "signer")]
                  eq_refl)).
Defined.

(** A network named as a property that every object inherits is found
    although [config.networks] has no entry for it: the check passes also
    when the network is required, and [network.config] is the inherited
    function. *)
Lemma newEnvironment_inherited_network :
  let runtimeArgs :=
    {| RuntimeArgs.network := "constructor";
       RuntimeArgs.showStackTraces := false; RuntimeArgs.version := false;
       RuntimeArgs.help := false; RuntimeArgs.verbose := false |} in
  newEnvironment noNetworksConfig runtimeArgs ∅ None None =
  Ok {| env :=
          {| config := noNetworksConfig; runtimeArgs := runtimeArgs;
             tasks := ∅;
             network := {| Network.name := "constructor";
                           Network.config := VFun "Object" |};
             extensions := ∅ |};
        _extenders := [] |}.
Proof. reflexivity. Qed.

(** ** Configuration objects *)

Lemma obj_lookup_set_eq o k v : obj_lookup (obj_set o k v) k = Some v.
Proof.
  induction o as [|[k' v'] o IH]; simpl.
  - by rewrite String.eqb_refl.
  - destruct (String.eqb k' k) eqn:Hk; simpl.
    + by rewrite String.eqb_refl.
    + by rewrite Hk.
Qed.

Lemma obj_lookup_set_ne o k k' v :
  k <> k' -> obj_lookup (obj_set o k v) k' = obj_lookup o k'.
Proof.
  intros Hne. induction o as [|[k0 v0] o IH]; simpl.
  - by apply String.eqb_neq in Hne as ->.
  - destruct (String.eqb k0 k) eqn:Hk; simpl; [|by rewrite IH].
    apply String.eqb_eq in Hk as ->.
    by apply String.eqb_neq in Hne as ->.
Qed.

Lemma obj_lookup_None o k : k ∉ o.*1 -> obj_lookup o k = None.
Proof.
  induction o as [|[k' v'] o IH]; [done|]. simpl.
  intros [Hne Hk]%not_elem_of_cons.
  apply not_eq_sym, String.eqb_neq in Hne as ->. by apply IH.
Qed.

Section MergeObject.

Variable mergeKey : string -> value -> value.

(** A key the source does not have keeps the destination's value. *)
Lemma mergeObject_lookup_absent source destination k :
  obj_lookup source k = None ->
  obj_lookup (mergeObject mergeKey destination source) k =
  obj_lookup destination k.
Proof.
  revert destination.
  induction source as [|[key sv] source IH]; intros destination; [done|].
  simpl. destruct (String.eqb key k) eqn:Hk; [discriminate|].
  intros Hnone. rewrite IH by done.
  apply obj_lookup_set_ne. by apply String.eqb_neq.
Qed.

(** A key of the source holds the merge of its value. *)
Lemma mergeObject_lookup_present source destination k sv :
  NoDup source.*1 -> obj_lookup source k = Some sv ->
  obj_lookup (mergeObject mergeKey destination source) k =
  Some (mergeKey k sv).
Proof.
  revert destination.
  induction source as [|[key sv'] source IH]; intros destination; [done|].
  simpl. intros [Hfresh Hnd]%NoDup_cons.
  destruct (String.eqb key k) eqn:Hk.
  - apply String.eqb_eq in Hk as ->. intros [= ->].
    rewrite mergeObject_lookup_absent by by apply obj_lookup_None.
    apply obj_lookup_set_eq.
  - intros Hsome. by apply IH.
Qed.

End MergeObject.

(** ** Merging the default and the user configuration *)

Lemma mergeUserAndDefaultConfigs_objects defaultFields userFields :
  mergeUserAndDefaultConfigs (VObj defaultFields) (VObj userFields) =
  VObj (mergeObject
          (fun key uv =>
             match obj_lookup defaultFields key with
             | Some dv => mergeUserAndDefaultConfigs dv uv
             | None => uv
             end) defaultFields userFields).
Proof. reflexivity. Qed.


(** C5: merging two configuration objects keeps each property only the
    default has, takes each property only the user has, and merges a
    property both have recursively; a property whose user value is an array
    gets exactly that array, whatever the default holds there, and a
    property whose user value is a scalar gets that scalar. *)
Theorem mergeUserAndDefaultConfigs_merge defaultFields userFields :
  NoDup userFields.*1 ->
  exists merged,
    mergeUserAndDefaultConfigs (VObj defaultFields) (VObj userFields)
      = VObj merged /\
    (forall key,
       obj_lookup merged key =
       match obj_lookup userFields key with
       | None => obj_lookup defaultFields key
       | Some uv =>
           Some match obj_lookup defaultFields key with
                | Some dv => mergeUserAndDefaultConfigs dv uv
                | None => uv
                end
       end) /\
    (forall key items,
       obj_lookup userFields key = Some (VArr items) ->
       obj_lookup merged key = Some (VArr items)) /\
    (forall key uv,
       obj_lookup userFields key = Some uv -> is_scalar uv = true ->
       obj_lookup merged key = Some uv).
Proof.
  intros Hnd. eexists. split; [apply mergeUserAndDefaultConfigs_objects|].
  assert (Hlookup : forall key,
    obj_lookup
      (mergeObject
         (fun key uv =>
            match obj_lookup defaultFields key with
            | Some dv => mergeUserAndDefaultConfigs dv uv
            | None => uv
            end) defaultFields userFields) key =
    match obj_lookup userFields key with
    | None => obj_lookup defaultFields key
    | Some uv =>
        Some match obj_lookup defaultFields key with
             | Some dv => mergeUserAndDefaultConfigs dv uv
             | None => uv
             end
    end).
  { intros key. destruct (obj_lookup userFields key) as [uv|] eqn:Hu.
    - by rewrite (mergeObject_lookup_present _ _ _ _ uv).
    - by rewrite mergeObject_lookup_absent. }
  split; [done|]. split.
  - intros key items Hu. rewrite Hlookup, Hu.
    by destruct (obj_lookup defaultFields key) as [[]|].
  - intros key uv Hu Hscalar. rewrite Hlookup, Hu.
    destruct (obj_lookup defaultFields key); [|done].
    by destruct uv.
Qed.

Lemma mergeUserAndDefaultConfigs_merge_witness :
  mergeUserAndDefaultConfigs (VObj exampleDefaultConfig)
                             (VObj exampleUserConfig)
    = VObj [("a", VNum 1); ("list", VArr [VNum 3])] /\
  exists merged,
    mergeUserAndDefaultConfigs (VObj exampleDefaultConfig)
                               (VObj exampleUserConfig) = VObj merged /\
    obj_lookup merged "list" = Some (VArr [VNum 3]) /\
    obj_lookup merged "a" = Some (VNum 1).
Proof.
  split; [reflexivity|].
  assert (Hnd : NoDup exampleUserConfig.*1).
  { change (NoDup ["list"]). apply (bool_decide_unpack _). vm_compute.
    exact I. }
  destruct (mergeUserAndDefaultConfigs_merge exampleDefaultConfig
              exampleUserConfig Hnd) as (merged & Hm & Hkeys & Harr & _).
  exists merged. split; [exact Hm|]. split.
  - apply Harr. reflexivity.
  - rewrite Hkeys. reflexivity.
Defined.

(** ** Resolving the configuration *)

Section ResolveConfig.

Context `{PathModule}.




End ResolveConfig.



(** ** Project paths *)

Lemma foldl_insert_entry_other (l : list (string * string))
    (o : gmap string string) k :
  k ∉ l.*1 ->
  foldl (fun o entry => <[entry.1 := entry.2]> o) o l !! k = o !! k.
Proof.
  revert o. induction l as [|entry l IH]; intros o Hk; [done|].
  rewrite fmap_cons in Hk. apply not_elem_of_cons in Hk as [Hne Hk].
  cbn [foldl]. rewrite IH by done. by rewrite lookup_insert_ne.
Qed.

Lemma foldl_insert_entry (l : list (string * string))
    (o : gmap string string) k v :
  NoDup l.*1 -> (k, v) ∈ l ->
  foldl (fun o entry => <[entry.1 := entry.2]> o) o l !! k = Some v.
Proof.
  revert o. induction l as [|entry l IH]; intros o Hnd Hin.
  - by apply elem_of_nil in Hin.
  - rewrite fmap_cons in Hnd. apply NoDup_cons in Hnd as [Hfresh Hnd].
    cbn [foldl]. apply elem_of_cons in Hin as [<-|Hin].
    + rewrite foldl_insert_entry_other by done. apply lookup_insert_eq.
    + by apply IH.
Qed.

(** Mapping the entries of an object and collecting them again maps its
    values. *)
Lemma fromEntries_map_entries (m : gmap string string)
    (f : string -> string) k :
  fromEntries ((fun entry => (entry.1, f entry.2)) <$> map_to_list m) !! k =
  f <$> m !! k.
Proof.
  unfold fromEntries.
  assert (Hkeys : ((fun entry : string * string => (entry.1, f entry.2))
                     <$> map_to_list m).*1 = (map_to_list m).*1).
  { rewrite <- list_fmap_compose. by apply list_fmap_ext. }
  destruct (m !! k) as [v|] eqn:Hk; simpl.
  - apply foldl_insert_entry.
    + rewrite Hkeys. apply NoDup_fst_map_to_list.
    + apply list_elem_of_fmap. exists (k, v). split; [done|].
      by apply elem_of_map_to_list.
  - rewrite foldl_insert_entry_other; [done|].
    rewrite Hkeys. intros Hin. apply list_elem_of_fmap in Hin
      as ([k' v] & -> & Hin). apply elem_of_map_to_list in Hin.
    simpl in Hk. congruence.
Qed.

(** C4: [root] is the declared root if that is absolute and otherwise the
    directory of the config file joined with it, the declared root
    defaulting to the empty string; [sources], [cache], [artifacts] and
    [tests], with the defaults "contracts", "cache", "artifacts" and "test",
    and every further path the user declares, are used as they are if
    absolute and otherwise joined to [root]; [configFile] is the path of
    the config file whatever the user declares. *)
Theorem resolveProjectPaths_layout `{PathModule}
    (userConfigPath : string) (userPaths : gmap string string) :
  let resolved := resolveProjectPaths userConfigPath (Some userPaths) in
  let configDir := path_dirname userConfigPath in
  let against (from p : string) :=
    if path_isAbsolute p then p else path_join from p in
  let root := against configDir (default "" (userPaths !! "root")) in
  resolved !! "root" = Some root /\
  resolved !! "configFile" = Some userConfigPath /\
  resolved !! "sources" =
    Some (against root (default "contracts" (userPaths !! "sources"))) /\
  resolved !! "cache" =
    Some (against root (default "cache" (userPaths !! "cache"))) /\
  resolved !! "artifacts" =
    Some (against root (default "artifacts" (userPaths !! "artifacts"))) /\
  resolved !! "tests" =
    Some (against root (default "test" (userPaths !! "tests"))) /\
  (forall other,
     other ∉ ["root"; "configFile"; "sources"; "cache"; "artifacts"; "tests"] ->
     resolved !! other = against root <$> userPaths !! other) /\
  resolveProjectPaths userConfigPath None =
    resolveProjectPaths userConfigPath (Some ∅).
Proof.
  intros resolved configDir against root. subst resolved.
  unfold resolveProjectPaths. cbn [default from_option id].
  repeat split; try (by simplify_map_eq).
  intros other Hother.
  repeat (apply not_elem_of_cons in Hother as [? Hother]).
  rewrite !lookup_insert_ne by done.
  apply (fromEntries_map_entries userPaths
           (fun p => resolvePathFrom root p None)).
Qed.

(** The path examples of the specification, with the plain path
    functions. *)
Lemma resolveProjectPaths_example_default :
  let resolved := @resolveProjectPaths plainPaths "/proj/cfg.js" (Some ∅) in
  resolved !! "root" = Some "/proj" /\
  resolved !! "sources" = Some "/proj/contracts" /\
  resolved !! "cache" = Some "/proj/cache" /\
  resolved !! "configFile" = Some "/proj/cfg.js".
Proof. repeat split; vm_compute; reflexivity. Qed.

Lemma resolveProjectPaths_example_root :
  let resolved :=
    @resolveProjectPaths plainPaths "/proj/cfg.js"
      (Some {["root" := "sub"; "deploy" := "out"; "configFile" := "x.js";
              "cache" := "/tmp/cache"]}) in
  resolved !! "root" = Some "/proj/sub" /\
  resolved !! "sources" = Some "/proj/sub/contracts" /\
  resolved !! "deploy" = Some "/proj/sub/out" /\
  resolved !! "cache" = Some "/tmp/cache" /\
  resolved !! "configFile" = Some "/proj/cfg.js".
Proof. repeat split; vm_compute; reflexivity. Qed.

(** * Further properties of the two files *)

(** ** Argument resolution: what a successful resolution holds *)

Lemma foldl_valueStep_key taskArguments l resolved k :
  is_Some (foldl (valueStep taskArguments) resolved l !! k) ->
  is_Some (resolved !! k) \/ k ∈ name <$> l.
Proof.
  destruct (decide (k ∈ name <$> l)) as [|Hk]; [by right|left].
  by rewrite <- (foldl_valueStep_other taskArguments l resolved k).
Qed.

(** X1: arguments that are not declared pass through a successful
    resolution untouched; no key of the raw arguments is dropped, and the
    only keys added are names of declared parameters. *)
Theorem resolveValidTaskArguments_passthrough
    taskDefinition taskArguments resolved :
  _resolveValidTaskArguments taskDefinition taskArguments = Ok resolved ->
  let declared := name <$> allTaskParamDefinitions taskDefinition in
  (forall k, k ∉ declared -> resolved !! k = taskArguments !! k) /\
  (forall k, is_Some (taskArguments !! k) -> is_Some (resolved !! k)) /\
  (forall k, is_Some (resolved !! k) ->
             is_Some (taskArguments !! k) \/ k ∈ declared).
Proof.
  intros [_ ->]%resolveValidTaskArguments_Ok declared. repeat split.
  - intros k Hk. apply lookup_union_r.
    by rewrite foldl_valueStep_other, lookup_empty.
  - intros k [v Hv]. rewrite lookup_union.
    destruct (foldl _ _ _ !! k); rewrite Hv; by eexists.
  - intros k. rewrite lookup_union.
    destruct (foldl _ _ _ !! k) as [v|] eqn:Hv.
    + intros _. right.
      destruct (foldl_valueStep_key taskArguments
                  (allTaskParamDefinitions taskDefinition) ∅ k)
        as [[? Habs]|?]; [by eexists| |done].
      by rewrite lookup_empty in Habs.
    + rewrite (left_id_L None _). by left.
Qed.

Lemma resolveValidTaskArguments_passthrough_witness :
  exists resolved,
    _resolveValidTaskArguments greetTask
      {["who" := VStr "world"; "verbose" := VBool true]} = Ok resolved /\
    resolved !! "verbose" = Some (VBool true).
Proof.
  eexists. split; [reflexivity|].
  refine (eq_trans (proj1 (resolveValidTaskArguments_passthrough greetTask
            {["who" := VStr "world"; "verbose" := VBool true]} _ eq_refl)
            "verbose" _) eq_refl).
  change ("verbose" ∉ ["greeting"; "tag"; "who"]).
  apply (bool_decide_unpack _). vm_compute. exact I.
Defined.

(** X2: the resolution of a task's arguments succeeds exactly when every
    declared parameter resolves on its own. *)
Theorem resolveValidTaskArguments_ok_iff taskDefinition taskArguments :
  is_ok (_resolveValidTaskArguments taskDefinition taskArguments) = true <->
  forall p, p ∈ allTaskParamDefinitions taskDefinition ->
    is_ok (_resolveArgument p (jsget taskArguments (name p))) = true.
Proof.
  assert (Hone : forall p,
    errorOf taskArguments p = None <->
    is_ok (_resolveArgument p (jsget taskArguments (name p))) = true).
  { intros p. unfold errorOf. by destruct (_resolveArgument p _). }
  destruct (resolveValidTaskArguments_split taskDefinition taskArguments)
    as (_ & _ & ->).
  destruct (omap _ _) as [|e rest] eqn:Hnone; simpl.
  - split; [|done]. intros _ p Hp. apply Hone.
    by apply (proj1 (omap_errorOf_nil _ _) Hnone).
  - split; [done|]. intros Hall.
    assert (omap (errorOf taskArguments)
              (allTaskParamDefinitions taskDefinition) = []) as Habs.
    { apply omap_errorOf_nil. intros p Hp. by apply Hone, Hall. }
    congruence.
Qed.

Lemma foldl_valueStep_invariant taskArguments (P : string -> value -> Prop)
    l resolved :
  (forall p v, p ∈ l ->
     _resolveArgument p (jsget taskArguments (name p)) = Ok v ->
     is_undefined v = false -> P (name p) v) ->
  (forall k v, resolved !! k = Some v -> P k v) ->
  forall k v,
    foldl (valueStep taskArguments) resolved l !! k = Some v -> P k v.
Proof.
  revert resolved. induction l as [|q l IH]; intros resolved Hl Hres; [done|].
  cbn [foldl]. apply IH.
  - intros p v Hp. apply Hl. by apply list_elem_of_further.
  - intros k v. unfold valueStep.
    destruct (_resolveArgument q _) as [w|] eqn:Hq; [|by apply Hres].
    destruct (is_undefined w) eqn:Hw; [by apply Hres|].
    destruct (decide (name q = k)) as [<-|Hne].
    + destruct (decide (name q = "__proto__")) as [Hproto|Hproto].
      * rewrite Hproto, jsset_proto, <- Hproto. apply Hres.
      * rewrite jsset_lookup_eq by done. intros [= <-].
        by apply (Hl q w (list_elem_of_here _ _)).
    + rewrite jsset_lookup_ne by done. apply Hres.
Qed.

(** X3: defaults are not validated.  When every declared parameter is
    optional and absent from the raw arguments, the resolution succeeds
    whatever the validators are; what it adds to the raw arguments are
    declared defaults, each under the name of its parameter, and never an
    undefined value. *)
Theorem resolveValidTaskArguments_defaults taskDefinition taskArguments :
  (forall p, p ∈ allTaskParamDefinitions taskDefinition ->
     isOptional p = true /\
     is_undefined (jsget taskArguments (name p)) = true) ->
  exists defaults,
    _resolveValidTaskArguments taskDefinition taskArguments =
      Ok (defaults ∪ taskArguments) /\
    forall k v, defaults !! k = Some v ->
      is_undefined v = false /\
      exists p, p ∈ allTaskParamDefinitions taskDefinition /\
                name p = k /\ defaultValue p = v.
Proof.
  intros Hall. eexists. split.
  - apply resolveValidTaskArguments_Ok. split; [|reflexivity].
    apply omap_errorOf_nil. intros p [Hopt Habs]%Hall.
    unfold errorOf, _resolveArgument. by rewrite Habs, Hopt.
  - apply foldl_valueStep_invariant; [|by intros k v; rewrite lookup_empty].
    intros p v Hp Hv Hdef. destruct (Hall p Hp) as [_ Habs].
    apply resolveArgument_absent in Hv as [_ ->]; [|done]. eauto.
Qed.

Lemma resolveValidTaskArguments_defaults_witness :
  _resolveValidTaskArguments optionalsTask {["dir" := VStr "src"]} =
  Ok {["retries" := VNum 3; "files" := VArr []; "dir" := VStr "src"]}.
Proof.
  destruct (resolveValidTaskArguments_defaults optionalsTask
              {["dir" := VStr "src"]}) as (defaults & Hres & _).
  - intros p Hp.
    repeat (apply elem_of_cons in Hp as [->|Hp]; [split; reflexivity|]).
    by apply elem_of_nil in Hp.
  - rewrite Hres. f_equal.
    assert (Hsame : Ok (defaults ∪ {["dir" := VStr "src"]}) =
              Ok ({["retries" := VNum 3; "files" := VArr [];
                    "dir" := VStr "src"]} : gmap string value))
      by (rewrite <- Hres; reflexivity).
    by injection Hsame.
Defined.

(** ** Argument resolution: type validation *)

Lemma validate_each_accepts check paramName vs :
  Forall (fun v => is_ok (check paramName v) = true) vs ->
  validate_each check paramName vs = Ok tt.
Proof.
  induction 1 as [|v vs Hv _ IH]; [done|]. simpl.
  by destruct (check paramName v).
Qed.

Lemma validate_each_rejects check paramName accepted v rest e :
  Forall (fun v => is_ok (check paramName v) = true) accepted ->
  check paramName v = Throw e ->
  validate_each check paramName (accepted ++ v :: rest) = Throw e.
Proof.
  induction 1 as [|w ws Hw _ IH]; intros Hv; simpl.
  - by rewrite Hv.
  - destruct (check paramName w); [by apply IH|done].
Qed.

(** X4: a variadic parameter with a validator has the validator applied to
    every element of the provided array, in order: the array resolves to
    itself when all its elements are accepted (the empty array always), and
    otherwise what is thrown is what the validator throws on the first
    rejected element; a provided value that cannot be iterated does not
    reach the validator and throws a TypeError. *)
Theorem resolveArgument_variadic paramDefinition ty check :
  isVariadic paramDefinition = true ->
  type paramDefinition = Some ty ->
  validate ty = Some check ->
  let accepts v := is_ok (check (name paramDefinition) v) = true in
  (forall items,
     Forall accepts items ->
     _resolveArgument paramDefinition (VArr items) = Ok (VArr items)) /\
  (forall accepted v rest e,
     Forall accepts accepted ->
     check (name paramDefinition) v = Throw e ->
     _resolveArgument paramDefinition (VArr (accepted ++ v :: rest))
       = Throw e) /\
  (forall v,
     match v with
     | VNull | VBool _ | VNum _ | VObj _ | VFun _ | VRunSuper _ _ =>
         exists message,
           _resolveArgument paramDefinition v = Throw (JsTypeError message)
     | _ => True
     end).
Proof.
  intros Hvar Hty Hcheck accepts.
  unfold _resolveArgument, _checkTypeValidation.
  rewrite Hvar, Hty, Hcheck. repeat split.
  - intros items Hall. cbn [is_undefined iterate].
    by rewrite validate_each_accepts.
  - intros accepted v rest e Hall Hv. cbn [is_undefined iterate].
    by rewrite (validate_each_rejects _ _ _ _ _ e Hall Hv).
  - intros []; try done; by eexists.
Qed.

Lemma resolveArgument_variadic_witness :
  _resolveArgument filesParam (VArr [VStr "a.rs"; VStr "b.rs"]) =
    Ok (VArr [VStr "a.rs"; VStr "b.rs"]) /\
  _resolveArgument filesParam (VArr [VStr "a.rs"; VNum 1; VNull]) =
    Throw (Thrown (VStr "files")) /\
  exists message,
    _resolveArgument filesParam (VNum 1) = Throw (JsTypeError message).
Proof.
  destruct (resolveArgument_variadic filesParam
              {| validate := Some stringsOnly |} stringsOnly
              eq_refl eq_refl eq_refl) as (Hok & Hfirst & Hiter).
  split; [|split].
  - apply Hok. by repeat constructor.
  - apply (Hfirst [VStr "a.rs"] (VNum 1) [VNull]); [by repeat constructor|].
    reflexivity.
  - exact (Hiter (VNum 1)).
Defined.

(** ** Argument resolution: declaration order *)

Lemma foldl_valueStep_at taskArguments l resolved p :
  NoDup (name <$> l) -> p ∈ l ->
  foldl (valueStep taskArguments) resolved l !! name p =
  valueStep taskArguments resolved p !! name p.
Proof.
  revert resolved. induction l as [|q l IH]; intros resolved Hnd Hin.
  - by apply elem_of_nil in Hin.
  - rewrite fmap_cons in Hnd. apply NoDup_cons in Hnd as [Hq Hnd].
    cbn [foldl]. apply elem_of_cons in Hin as [<-|Hin].
    + by rewrite foldl_valueStep_other.
    + rewrite IH by done.
      assert (name q <> name p) as Hne.
      { intros Heq. apply Hq. rewrite Heq. by apply list_elem_of_fmap_2. }
      unfold valueStep at 1 3.
      destruct (_resolveArgument p _) as [v|]; [|by apply valueStep_other].
      destruct (is_undefined v); [by apply valueStep_other|].
      destruct (decide (name p = "__proto__")) as [Hproto|Hproto].
      * rewrite Hproto, !jsset_proto, <- Hproto. by apply valueStep_other.
      * by rewrite !jsset_lookup_eq.
Qed.

(** X5: with distinct parameter names, the order in which the parameters
    are declared decides neither whether the resolution succeeds nor what
    it resolves to. *)
Theorem resolveValidTaskArguments_order
    taskDefinition taskDefinition' taskArguments :
  allTaskParamDefinitions taskDefinition
    ≡ₚ allTaskParamDefinitions taskDefinition' ->
  NoDup (name <$> allTaskParamDefinitions taskDefinition) ->
  forall resolved,
    _resolveValidTaskArguments taskDefinition taskArguments = Ok resolved <->
    _resolveValidTaskArguments taskDefinition' taskArguments = Ok resolved.
Proof.
  intros Hperm Hnd resolved.
  assert (Hnd' : NoDup (name <$> allTaskParamDefinitions taskDefinition'))
    by by rewrite <- Hperm.
  assert (Hmaps :
    foldl (valueStep taskArguments) ∅ (allTaskParamDefinitions taskDefinition)
    = foldl (valueStep taskArguments) ∅
        (allTaskParamDefinitions taskDefinition')).
  { apply map_eq. intros k.
    destruct (decide (k ∈ name <$> allTaskParamDefinitions taskDefinition))
      as [Hk|Hk].
    - apply list_elem_of_fmap in Hk as (p & -> & Hp).
      rewrite !foldl_valueStep_at; [done|done| |done|done].
      by rewrite <- Hperm.
    - rewrite !foldl_valueStep_other; [done| |done]. by rewrite <- Hperm. }
  rewrite !resolveValidTaskArguments_Ok, !omap_errorOf_nil, Hmaps.
  split; intros [Hall ->]; (split; [|done]); intros p Hp; apply Hall.
  - by rewrite Hperm.
  - by rewrite <- Hperm.
Qed.

Lemma resolveValidTaskArguments_order_witness :
  _resolveValidTaskArguments greetTaskReordered {["who" := VStr "world"]} =
  Ok (<["greeting" := VStr "hello"]> {["who" := VStr "world"]}).
Proof.
  apply (resolveValidTaskArguments_order greetTask greetTaskReordered).
  - change ([greetingParam; optionalNoDefault; whoParam]
              ≡ₚ [optionalNoDefault; greetingParam; whoParam]).
    apply perm_swap.
  - change (NoDup ["greeting"; "tag"; "who"]).
    apply (bool_decide_unpack _). vm_compute. exact I.
  - reflexivity.
Defined.

(** ** Ambient exposure: what the injection writes *)

Section Injection.

Variable blacklist : list string.

Lemma foldl_injectEntry_skipped l acc k :
  k ∉ l.*1 \/ includes blacklist k = true ->
  (foldl (injectEntry blacklist) acc l).1 !! k = acc.1 !! k /\
  (foldl (injectEntry blacklist) acc l).2 !! k = acc.2 !! k.
Proof.
  revert acc. induction l as [|entry l IH]; intros acc Hk; [done|].
  cbn [foldl]. rewrite fmap_cons in Hk.
  destruct (IH (injectEntry blacklist acc entry)) as [-> ->].
  { destruct Hk as [Hk|Hk]; [left|by right].
    by apply not_elem_of_cons in Hk as [_ Hk]. }
  destruct (decide (entry.1 = k)) as [Heq|Hne].
  - destruct Hk as [Hk|Hk].
    + apply not_elem_of_cons in Hk as [Hk _]. congruence.
    + unfold injectEntry. by rewrite Heq, Hk.
  - by rewrite injectEntry_previous_other, injectEntry_global_other.
Qed.

Lemma foldl_injectEntry_global l acc k v :
  NoDup l.*1 -> (k, v) ∈ l -> includes blacklist k = false ->
  (foldl (injectEntry blacklist) acc l).2 !! k = Some v.
Proof.
  revert acc. induction l as [|entry l IH]; intros acc Hnd Hin Hbl.
  - by apply elem_of_nil in Hin.
  - rewrite fmap_cons in Hnd. apply NoDup_cons in Hnd as [Hfresh Hnd].
    cbn [foldl]. apply elem_of_cons in Hin as [<-|Hin]; [|by apply IH].
    destruct (foldl_injectEntry_skipped l
                (injectEntry blacklist acc (k, v)) k) as [_ ->];
      [by left|].
    unfold injectEntry. cbn [fst snd]. rewrite Hbl. cbn [snd].
    apply lookup_insert_eq.
Qed.

Lemma injectToGlobal_lookup st k :
  let injected := (injectToGlobal blacklist st).2 in
  this injected = this st /\
  global injected !! k =
    if includes blacklist k then global st !! k
    else match this st !! k with
         | Some v => Some v
         | None => global st !! k
         end.
Proof.
  intros injected. split; [done|]. subst injected.
  unfold injectToGlobal. cbn [fst snd global].
  destruct (includes blacklist k) eqn:Hbl.
  - by destruct (foldl_injectEntry_skipped (map_to_list (this st))
                   (∅, global st) k) as [_ ->]; [right|].
  - destruct (this st !! k) as [v|] eqn:Hk.
    + apply foldl_injectEntry_global;
        [apply NoDup_fst_map_to_list|by apply elem_of_map_to_list|done].
    + destruct (foldl_injectEntry_skipped (map_to_list (this st))
                  (∅, global st) k) as [_ ->]; [|done].
      left. rewrite elem_of_keys_map_to_list, elem_of_dom, Hk.
      by intros [? ?].
Qed.

(** X6: [injectToGlobal] leaves the environment as it is and makes the
    global object hold every property of the environment that is not
    blacklisted; a blacklisted name, and a name that is no property of the
    environment, keeps what the global object held. *)
Theorem injectToGlobal_exposes st k :
  let injected := (injectToGlobal blacklist st).2 in
  this injected = this st /\
  global injected !! k =
    if includes blacklist k then global st !! k
    else match this st !! k with
         | Some v => Some v
         | None => global st !! k
         end.
Proof. apply injectToGlobal_lookup. Qed.

(** X7: restoring right after injecting gives back every read of the
    global object, whatever the blacklist, and the environment is as it
    was. *)
Theorem injectToGlobal_round_trip st k :
  let injection := injectToGlobal blacklist st in
  let restored := injection.1 injection.2 in
  jsget (global restored) k = jsget (global st) k /\
  this restored = this st.
Proof.
  intros injection restored. split; [|done].
  destruct (injectToGlobal_lookup st k) as [_ Hinj].
  subst restored injection. unfold injectToGlobal in *.
  cbn [fst snd restorePrevious global this] in *.
  unfold jsget at 1. rewrite foldl_restoreEntry.
  destruct (includes blacklist k) eqn:Hbl.
  - rewrite andb_false_r. by rewrite Hinj.
  - rewrite andb_true_r. case_bool_decide as Hk.
    + cbn [default]. unfold jsget at 1.
      rewrite foldl_injectEntry_previous;
        [done|apply NoDup_fst_map_to_list|done|done].
    + rewrite Hinj.
      rewrite elem_of_keys_map_to_list, elem_of_dom in Hk.
      destruct (this st !! k); [|done]. exfalso. apply Hk. by eexists.
Qed.

End Injection.

(** ** Running a task definition: what the action sees and what is left *)

Lemma runTaskDefinition_actionRun taskDefinition taskArguments st :
  _runTaskDefinition taskDefinition taskArguments st =
  ((actionRun taskDefinition taskArguments st).1,
   set_global "runSuper" (jsget (global st) "runSuper")
     ((injectToGlobal _BLACKLISTED_PROPERTIES
         (set_global "runSuper"
            (VRunSuper (taskName (fieldsOf taskDefinition))
               (isDefined (runSuperFunction taskDefinition taskArguments)))
            st)).1
        (actionRun taskDefinition taskArguments st).2)).
Proof. by rewrite runTaskDefinition_unfold. Qed.

(** X8: [_runTaskDefinition] runs the action of the task, with the task
    arguments and the task's [runSuper], from a state in which every
    property of the environment that is not blacklisted is a global of the
    same name and value and in which, unless the environment has a property
    of that name, the global [runSuper] is the task's own [runSuper],
    defined for an override and not for a base definition; the environment
    is then as it was before the run, and the run returns or throws what the
    action returns or throws from that state. *)
Theorem runTaskDefinition_during taskDefinition taskArguments st :
  let during := duringAction taskDefinition taskArguments st in
  let ran :=
    action (fieldsOf taskDefinition) taskArguments
      (runSuperFunction taskDefinition taskArguments) during in
  (_runTaskDefinition taskDefinition taskArguments st).1 = ran.1 /\
  this (_runTaskDefinition taskDefinition taskArguments st).2 = this ran.2 /\
  this during = this st /\
  (forall k v,
     this st !! k = Some v -> includes _BLACKLISTED_PROPERTIES k = false ->
     global during !! k = Some v) /\
  (this st !! "runSuper" = None ->
   global during !! "runSuper" =
     Some (VRunSuper (taskName (fieldsOf taskDefinition))
             match taskDefinition with
             | SimpleTaskDefinition _ => false
             | OverriddenTaskDefinition _ _ => true
             end)).
Proof.
  intros during ran. rewrite runTaskDefinition_actionRun.
  split; [done|]. split; [done|].
  subst ran during. unfold duringAction.
  set (st1 := set_global "runSuper" _ st).
  split; [done|]. split.
  - intros k v Hk Hbl.
    destruct (injectToGlobal_lookup _BLACKLISTED_PROPERTIES st1 k)
      as [_ ->].
    rewrite Hbl. change (this st1) with (this st). by rewrite Hk.
  - intros Hnone.
    destruct (injectToGlobal_lookup _BLACKLISTED_PROPERTIES st1 "runSuper")
      as [_ ->].
    change (this st1) with (this st). rewrite Hnone.
    cbn [includes _BLACKLISTED_PROPERTIES existsb String.eqb orb].
    unfold st1, set_global. cbn [global]. rewrite lookup_insert_eq.
    by destruct taskDefinition.
Qed.

Lemma runTaskDefinition_during_witness :
  (_runTaskDefinition observeTask ∅ sampleState).1 =
    Ok (VArr [VObj [("name", VStr "dev")]; VRunSuper "observe" false]) /\
  global (duringAction delegationChain ∅ sampleState) !! "runSuper" =
    Some (VRunSuper "compile" true).
Proof.
  split.
  - destruct (runTaskDefinition_during observeTask ∅ sampleState)
      as (Hrun & _ & _ & Hprops & Hsuper).
    rewrite Hrun. cbn [observeTask fieldsOf mkTask action observeGlobals fst].
    unfold jsget.
    rewrite (Hprops "network" (VObj [("name", VStr "dev")]))
      by reflexivity.
    rewrite Hsuper by reflexivity. reflexivity.
  - destruct (runTaskDefinition_during delegationChain ∅ sampleState)
      as (_ & _ & _ & _ & Hsuper).
    apply Hsuper. reflexivity.
Defined.

(** X9: a run returns or throws what the action returns or throws and
    leaves the environment as the action left it; in the global object it
    leaves every name that is neither [runSuper] nor, at that moment, a
    property of the environment that is not blacklisted, exactly as the
    action left it. *)
Theorem runTaskDefinition_frame taskDefinition taskArguments st :
  let ran := actionRun taskDefinition taskArguments st in
  let finished := _runTaskDefinition taskDefinition taskArguments st in
  finished.1 = ran.1 /\
  this finished.2 = this ran.2 /\
  forall k,
    k <> "runSuper" ->
    k ∉ dom (this ran.2) \/ includes _BLACKLISTED_PROPERTIES k = true ->
    global finished.2 !! k = global ran.2 !! k.
Proof.
  intros ran finished. subst finished.
  rewrite runTaskDefinition_actionRun. fold ran.
  split; [done|]. split; [done|].
  intros k Hne Hk.
  cbn [fst snd set_global injectToGlobal restorePrevious global].
  rewrite lookup_insert_ne by done. rewrite foldl_restoreEntry.
  destruct Hk as [Hk|Hk].
  - rewrite bool_decide_eq_false_2; [done|].
    by rewrite elem_of_keys_map_to_list.
  - by rewrite Hk, andb_false_r.
Qed.

Lemma runTaskDefinition_frame_witness :
  let finished := _runTaskDefinition scribbleTask ∅ sampleState in
  finished.1 = Throw (Thrown (VStr "failed")) /\
  global finished.2 !! "scratch" = Some (VNum 1) /\
  global finished.2 !! "config" = Some (VStr "previous").
Proof.
  destruct (runTaskDefinition_frame scribbleTask ∅ sampleState)
    as (Hout & _ & Hframe).
  split; [exact Hout|]. split; [|reflexivity].
  rewrite (Hframe "scratch"); [reflexivity|discriminate|].
  left. apply (bool_decide_unpack _). vm_compute. exact I.
Defined.

(** X10: if a run leaves the environment with the property names it had,
    then after it every injected name, and [runSuper], reads in the global
    object as it did before the run, whether the action returned or threw
    and whatever it wrote to those names meanwhile. *)
Theorem runTaskDefinition_restores_injected
    taskDefinition taskArguments st k :
  let after := (_runTaskDefinition taskDefinition taskArguments st).2 in
  dom (this after) = dom (this st) ->
  (k ∈ dom (this st) /\ includes _BLACKLISTED_PROPERTIES k = false)
    \/ k = "runSuper" ->
  jsget (global after) k = jsget (global st) k.
Proof.
  intros after. subst after. rewrite runTaskDefinition_unfold.
  apply withAmbient_restores.
Qed.

Lemma runTaskDefinition_restores_injected_witness :
  jsget (global (_runTaskDefinition scribbleTask ∅ sampleState).2) "config"
  = VStr "previous".
Proof.
  apply (runTaskDefinition_restores_injected scribbleTask ∅ sampleState
           "config").
  - apply (bool_decide_unpack _). vm_compute. exact I.
  - left. split; [|reflexivity].
    apply (bool_decide_unpack _). vm_compute. exact I.
Defined.

(** ** Running a task by name *)

(** X11: [run] on a name that is not registered throws before any
    argument is resolved and before the ambient state is touched: the
    global object and the environment are as they were.  What it throws is
    UNRECOGNIZED_TASK with that name, unless the name is one that every
    object inherits ([constructor], [toString], ...): then the inherited
    value is taken for a task definition and resolving against it throws a
    TypeError. *)
Theorem run_unregistered (tasks : gmap string TaskDefinition)
    taskName taskArguments st :
  tasks !! taskName = None ->
  exists e,
    run tasks taskName taskArguments st = (Throw e, st) /\
    (Object_prototype taskName = None ->
     e = TrestleError ARGUMENTS_UNRECOGNIZED_TASK [("task", taskName)]) /\
    (forall v, Object_prototype taskName = Some v ->
               exists message, e = JsTypeError message).
Proof.
  intros Hnone. unfold run, taskEntryOf. rewrite Hnone.
  destruct (Object_prototype taskName) as [v|]; cbn [fmap option_fmap option_map].
  - eexists. split; [reflexivity|]. split; [discriminate|].
    intros _ _. by eexists.
  - eexists. split; [reflexivity|]. split; [done|]. discriminate.
Qed.

Lemma run_unregistered_witness :
  run {["greet" := greetTask]} "deploy" None sampleState =
    (Throw (TrestleError ARGUMENTS_UNRECOGNIZED_TASK [("task", "deploy")]),
     sampleState) /\
  exists message,
    run {["greet" := greetTask]} "toString" None sampleState =
      (Throw (JsTypeError message), sampleState).
Proof.
  assert (Hdeploy : ({["greet" := greetTask]} : gmap string TaskDefinition)
                      !! "deploy" = None) by reflexivity.
  assert (HtoString : ({["greet" := greetTask]} : gmap string TaskDefinition)
                        !! "toString" = None) by reflexivity.
  split.
  - destruct (run_unregistered {["greet" := greetTask]} "deploy" None
                sampleState Hdeploy) as (e & He & Hname & _).
    rewrite He, (Hname eq_refl). reflexivity.
  - destruct (run_unregistered {["greet" := greetTask]} "toString" None
                sampleState HtoString) as (e & He & _ & Hinherited).
    destruct (Hinherited _ eq_refl) as [message ->]. by exists message.
Defined.

(** ** Constructing the environment: the order of the extenders *)

Lemma forEachExtender_app extenders extenders' self :
  forEachExtender (extenders ++ extenders') self =
  match forEachExtender extenders self with
  | Ok self' => forEachExtender extenders' self'
  | Throw e => Throw e
  end.
Proof.
  revert self. induction extenders as [|extender extenders IH]; intros self;
    [done|].
  simpl. by destruct (extender self).
Qed.

(** X12: when the network check passes (the selected network has a
    non-falsy entry, or [networkRequired] is false), the extenders run in
    list order, each on the environment the previous one left, and the
    first extender that throws ends the construction with what it throws:
    the extenders after it have no say. *)
Theorem newEnvironment_first_throwing_extender config runtimeArgs tasks
    (mutators : list (TrestleRuntimeEnvironment -> TrestleRuntimeEnvironment))
    (extender : EnvironmentExtender) rest e networkRequired :
  is_falsy (jsget (networks config) (RuntimeArgs.network runtimeArgs))
    && default true networkRequired = false ->
  extender (foldl (fun self f => f self)
              (coreFields config runtimeArgs tasks) mutators) = Throw e ->
  newEnvironment config runtimeArgs tasks
    (Some ((((fun f self => Ok (f self)) <$> mutators)
              ++ extender :: rest)%list))
    networkRequired
  = Throw e.
Proof.
  intros Hgate Hthrow. unfold newEnvironment.
  cbv zeta. rewrite Hgate.
  change (default [] (Some ?l)) with l.
  rewrite forEachExtender_app, forEachExtender_total.
  cbn [forEachExtender]. by rewrite Hthrow.
Qed.

Lemma newEnvironment_first_throwing_extender_witness :
  newEnvironment devNetworkConfig defaultNetworkArgs ∅
    (Some [fun self => Ok (addExtension "provider" (VFun "provider") self);
           throwingExtender;
           fun self => Ok (addExtension "signer" (VFun "signer") self)])
    None
  = Throw (Thrown (VStr "plugin failed")).
Proof.
  exact (newEnvironment_first_throwing_extender devNetworkConfig
           defaultNetworkArgs ∅ [addExtension "provider" (VFun "provider")]
           throwingExtender
           [fun self => Ok (addExtension "signer" (VFun "signer") self)]
           (Thrown (VStr "plugin failed")) None eq_refl eq_refl).
Defined.

(** ** Resolving the configuration: fields and extenders *)

Section ResolveConfigMore.

Context `{PathModule}.




End ResolveConfigMore.


(** ** Project paths: keys, absoluteness, fixed point *)

Section ProjectPaths.

Context `{PathModule}.

Variable userConfigPath : string.
Variable userPaths : gmap string string.

Let root : string :=
  resolvePathFrom (path_dirname userConfigPath) "" (userPaths !! "root").

Lemma resolveProjectPaths_lookup k :
  resolveProjectPaths userConfigPath (Some userPaths) !! k =
  if decide ("tests" = k) then
    Some (resolvePathFrom root "test" (userPaths !! "tests"))
  else if decide ("artifacts" = k) then
    Some (resolvePathFrom root "artifacts" (userPaths !! "artifacts"))
  else if decide ("cache" = k) then
    Some (resolvePathFrom root "cache" (userPaths !! "cache"))
  else if decide ("sources" = k) then
    Some (resolvePathFrom root "contracts" (userPaths !! "sources"))
  else if decide ("configFile" = k) then Some userConfigPath
  else if decide ("root" = k) then Some root
  else (fun p => resolvePathFrom root p None) <$> userPaths !! k.
Proof.
  unfold resolveProjectPaths. cbn [default from_option id]. fold root.
  rewrite !lookup_insert. repeat (case_decide; [done|]).
  apply (fromEntries_map_entries userPaths
           (fun p => resolvePathFrom root p None)).
Qed.

(** X15: the resolved paths have the six keys [root], [configFile],
    [sources], [cache], [artifacts] and [tests] and, besides them, exactly
    the keys the user declares. *)
Theorem resolveProjectPaths_keys :
  dom (resolveProjectPaths userConfigPath (Some userPaths)) =
  {["root"; "configFile"; "sources"; "cache"; "artifacts"; "tests"]}
    ∪ dom userPaths.
Proof.
  apply set_eq. intros k.
  rewrite elem_of_dom, resolveProjectPaths_lookup, elem_of_union,
    (elem_of_dom userPaths).
  rewrite !elem_of_union, !elem_of_singleton.
  repeat (destruct (decide (_ = k)) as [<-|?];
          [split; [intros _; left; tauto|by eexists]|]).
  rewrite fmap_is_Some. split; [by right|].
  intros [Hk|Hk]; [|done]. exfalso. intuition congruence.
Qed.

Lemma resolvePathFrom_absolute from defaultPath p :
  (forall a b, path_isAbsolute a = true ->
               path_isAbsolute (path_join a b) = true) ->
  path_isAbsolute from = true ->
  path_isAbsolute (resolvePathFrom from defaultPath p) = true.
Proof.
  intros Hjoin Hfrom. unfold resolvePathFrom.
  destruct (path_isAbsolute (default defaultPath p)) eqn:Habs; [done|].
  by apply Hjoin.
Qed.

Lemma resolvePathFrom_of_absolute from defaultPath p :
  path_isAbsolute p = true ->
  resolvePathFrom from defaultPath (Some p) = p.
Proof. unfold resolvePathFrom. cbn [default from_option id]. by intros ->. Qed.

Hypothesis join_absolute :
  forall a b, path_isAbsolute a = true ->
              path_isAbsolute (path_join a b) = true.
Hypothesis configDir_absolute :
  path_isAbsolute (path_dirname userConfigPath) = true.

Lemma root_absolute : path_isAbsolute root = true.
Proof. by apply resolvePathFrom_absolute. Qed.

Lemma resolved_path_absolute k p :
  resolveProjectPaths userConfigPath (Some userPaths) !! k = Some p ->
  k <> "configFile" ->
  path_isAbsolute p = true.
Proof.
  rewrite resolveProjectPaths_lookup. intros Hk Hne.
  pose proof root_absolute as Hroot.
  repeat (case_decide;
          [first [congruence
                 | injection Hk as <-; first [done
                     | by apply resolvePathFrom_absolute]]|]).
  apply fmap_Some in Hk as (q & _ & ->).
  by apply resolvePathFrom_absolute.
Qed.

(** X16: when joining onto an absolute path gives an absolute path and the
    directory of the config file is absolute, every resolved path other
    than [configFile] is absolute, whatever the user declares. *)
Theorem resolveProjectPaths_absolute k p :
  resolveProjectPaths userConfigPath (Some userPaths) !! k = Some p ->
  k <> "configFile" ->
  path_isAbsolute p = true.
Proof. apply resolved_path_absolute. Qed.

(** X17: under the same conditions the resolved paths are a fixed point:
    resolving them again as user paths, from the same config file, gives
    them back. *)
Theorem resolveProjectPaths_fixed_point :
  resolveProjectPaths userConfigPath
    (Some (resolveProjectPaths userConfigPath (Some userPaths)))
  = resolveProjectPaths userConfigPath (Some userPaths).
Proof.
  set (first := resolveProjectPaths userConfigPath (Some userPaths)).
  assert (Habs : forall k p, first !! k = Some p -> k <> "configFile" ->
                   path_isAbsolute p = true)
    by apply resolved_path_absolute.
  assert (Hat : forall k, first !! k = _) by apply resolveProjectPaths_lookup.
  assert (Hroot : first !! "root" = Some root) by by rewrite Hat.
  apply map_eq. intros k.
  unfold resolveProjectPaths at 1. cbn [default from_option id].
  rewrite Hroot, resolvePathFrom_of_absolute by apply root_absolute.
  rewrite !lookup_insert, (Hat k).
  assert (Hfix : forall n d x,
            first !! n = Some x -> n <> "configFile" ->
            resolvePathFrom root d (first !! n) = x).
  { intros n d x Hn Hne. rewrite Hn.
    apply resolvePathFrom_of_absolute. by apply (Habs n). }
  rewrite (Hfix "tests" "test" _ (Hat "tests")) by discriminate.
  rewrite (Hfix "artifacts" "artifacts" _ (Hat "artifacts")) by discriminate.
  rewrite (Hfix "cache" "cache" _ (Hat "cache")) by discriminate.
  rewrite (Hfix "sources" "contracts" _ (Hat "sources")) by discriminate.
  repeat (destruct (decide (_ = k)) as [?|?]; [done|]).
  rewrite (fromEntries_map_entries first
             (fun p => resolvePathFrom root p None)).
  destruct (first !! k) as [q|] eqn:Hq; rewrite Hat in Hq;
    repeat (destruct (decide (_ = k)) as [?|?]; [done|]);
    destruct (userPaths !! k) as [q'|]; try done.
  injection Hq as <-. cbn [fmap option_fmap option_map]. f_equal.
  change (resolvePathFrom root (resolvePathFrom root q' None) None)
    with (resolvePathFrom root "" (Some (resolvePathFrom root q' None))).
  apply resolvePathFrom_of_absolute, resolvePathFrom_absolute;
    [done|apply root_absolute].
Qed.

End ProjectPaths.

(** X18: a root that the user declares as an absolute path detaches the
    layout from the place of the config file: apart from [configFile],
    the resolved paths are the same for every config file path. *)
Theorem resolveProjectPaths_absolute_root `{PathModule}
    (userPaths : gmap string string) declaredRoot
    userConfigPath userConfigPath' k :
  userPaths !! "root" = Some declaredRoot ->
  path_isAbsolute declaredRoot = true ->
  k <> "configFile" ->
  resolveProjectPaths userConfigPath (Some userPaths) !! k =
  resolveProjectPaths userConfigPath' (Some userPaths) !! k.
Proof.
  intros Hroot Habs Hne. rewrite !resolveProjectPaths_lookup. cbv zeta.
  rewrite Hroot, !resolvePathFrom_of_absolute by done.
  by repeat (destruct (decide (_ = k)) as [?|?]; [done|]).
Qed.

Lemma plainPaths_join_absolute a b :
  @path_isAbsolute plainPaths a = true ->
  @path_isAbsolute plainPaths (@path_join plainPaths a b) = true.
Proof.
  destruct a as [|c a]; [discriminate|]. cbn.
  intros Hc. destruct (String.eqb b ""); [done|]. by cbn.
Qed.

Lemma resolveProjectPaths_absolute_witness :
  @path_isAbsolute plainPaths "/proj/sub/out" = true.
Proof.
  apply (@resolveProjectPaths_absolute plainPaths "/proj/cfg.js"
           {["root" := "sub"; "deploy" := "out"]}
           plainPaths_join_absolute eq_refl "deploy").
  - reflexivity.
  - discriminate.
Defined.

Lemma resolveProjectPaths_fixed_point_witness :
  let resolved :=
    @resolveProjectPaths plainPaths "/proj/cfg.js"
      (Some {["root" := "sub"; "deploy" := "out"]}) in
  @resolveProjectPaths plainPaths "/proj/cfg.js" (Some resolved) = resolved.
Proof.
  exact (@resolveProjectPaths_fixed_point plainPaths "/proj/cfg.js"
           {["root" := "sub"; "deploy" := "out"]}
           plainPaths_join_absolute eq_refl).
Defined.

Lemma resolveProjectPaths_absolute_root_witness :
  @resolveProjectPaths plainPaths "/proj/cfg.js"
    (Some {["root" := "/srv/app"; "deploy" := "out"]}) !! "deploy" =
  @resolveProjectPaths plainPaths "/elsewhere/trestle.config.js"
    (Some {["root" := "/srv/app"; "deploy" := "out"]}) !! "deploy".
Proof.
  apply (@resolveProjectPaths_absolute_root plainPaths
           {["root" := "/srv/app"; "deploy" := "out"]} "/srv/app").
  - reflexivity.
  - reflexivity.
  - discriminate.
Defined.

(** ** The command line entry point *)

Lemma ErrorObject_parent_ind (P : ErrorObject -> Prop) :
  (forall b m, P (MkErrorObject b m None)) ->
  (forall b m parent, P parent -> P (MkErrorObject b m (Some parent))) ->
  forall e, P e.
Proof.
  intros Hnone Hsome. fix IH 1. intros [b m [parent|]].
  - apply Hsome, IH.
  - apply Hnone.
Qed.

(** X19: [printErrRecur] writes at most one line, and never an instance of
    [TrestleError]: it writes the nearest ancestor of the error that is
    not one, passing over the framework errors in between and not going on
    to that ancestor's own parents; when every ancestor is a framework
    error, or there is none, it writes nothing. *)
Theorem printErrRecur_nearest_foreign error :
  (exists skipped cause rest,
     ancestors error = (skipped ++ cause :: rest)%list /\
     Forall (fun a => instanceofTrestleError a = true) skipped /\
     instanceofTrestleError cause = false /\
     printErrRecur error = [LineObject cause]) \/
  (Forall (fun a => instanceofTrestleError a = true) (ancestors error) /\
   printErrRecur error = []).
Proof.
  induction error as [b m|b m parent IH] using ErrorObject_parent_ind.
  - right. by split.
  - cbn [ancestors printErrRecur].
    destruct (instanceofTrestleError parent) eqn:Hparent.
    + destruct IH as [(skipped & cause & rest & -> & Hskip & Hcause & ->)
                     |[Hall ->]].
      * left. exists (parent :: skipped), cause, rest.
        repeat split; [|done]. by constructor.
      * right. split; [by constructor|done].
    + left. exists [], parent, (ancestors parent). by repeat split.
Qed.

Lemma printErrRecur_example :
  printErrRecur wrappedError =
    [LineObject (MkErrorObject false "ENOENT"
                   (Some (MkErrorObject false "syscall" None)))] /\
  printStackTraces true (Some wrappedError) = printErrRecur wrappedError /\
  length (printStackTraces false (Some wrappedError)) = 1.
Proof. repeat split. Qed.

Section LoadEnvironmentAndArgs.

Context `{CliCollaborators}.

(** X20: asking for the help of a registered task other than the help
    task, where the help task is a setup task, selects the help task with
    the single argument [task] set to the name asked for; the remaining
    command line is not parsed, being outside a project does not matter,
    and a network without configuration does not stop the construction of
    the environment: only an extender that throws does. *)
Theorem loadEnvironmentAndArgs_help
    taskName runtimeArgs unparsedCLAs loaded taskDefinition :
  loadConfigAndTasks runtimeArgs = Ok loaded ->
  taskDefinitions loaded !! taskName = Some taskDefinition ->
  RuntimeArgs.help runtimeArgs = true ->
  taskName <> TASK_HELP ->
  isSetupTask TASK_HELP = true ->
  loadEnvironmentAndArgs (Some taskName) runtimeArgs unparsedCLAs =
  match forEachExtender (envExtenders loaded)
          (coreFields (loadedConfig loaded) runtimeArgs
                      (taskDefinitions loaded)) with
  | Ok self =>
      CliOk {| ea_env := {| env := self;
                            _extenders := envExtenders loaded |};
               ea_taskName := TASK_HELP;
               ea_taskArguments := {["task" := VStr taskName]} |}
  | Throw e => CliThrow (CoreError e)
  end.
Proof.
  intros Hloaded Hknown Hhelp Hne Hsetup. unfold loadEnvironmentAndArgs.
  rewrite Hloaded. cbn [default from_option id]. unfold taskEntryOf.
  rewrite Hknown, Hhelp.
  apply String.eqb_neq in Hne as ->. cbn [andb negb].
  rewrite Hsetup. cbn [andb negb].
  rewrite newEnvironment_not_required.
  by destruct (forEachExtender _ _).
Qed.

(** X21: outside a project, a registered task that is not a setup task
    (or the help asked for it, where the help task is not a setup task)
    fails with NOT_INSIDE_PROJECT, which names the task given on the
    command line; neither the network configuration nor the extenders are
    looked at. *)
Theorem loadEnvironmentAndArgs_outside_project
    taskName runtimeArgs unparsedCLAs loaded taskDefinition :
  loadConfigAndTasks runtimeArgs = Ok loaded ->
  taskDefinitions loaded !! taskName = Some taskDefinition ->
  isCwdInsideProject = false ->
  (RuntimeArgs.help runtimeArgs && negb (String.eqb taskName TASK_HELP)
     = true /\ isSetupTask TASK_HELP = false)
  \/ (RuntimeArgs.help runtimeArgs && negb (String.eqb taskName TASK_HELP)
       = false /\
     is_ok (parseTaskArguments taskDefinition unparsedCLAs) = true /\
     isSetupTask taskName = false) ->
  loadEnvironmentAndArgs (Some taskName) runtimeArgs unparsedCLAs =
  CliThrow (GENERAL_NOT_INSIDE_PROJECT taskName).
Proof.
  intros Hloaded Hknown Houtside Hcase. unfold loadEnvironmentAndArgs.
  rewrite Hloaded. cbn [default from_option id]. unfold taskEntryOf.
  rewrite Hknown, Houtside.
  destruct Hcase as [[-> Hsetup]|(-> & Hparsed & Hsetup)].
  - by rewrite Hsetup.
  - destruct (parseTaskArguments taskDefinition unparsedCLAs);
      [|discriminate].
    by rewrite Hsetup.
Qed.

End LoadEnvironmentAndArgs.

Lemma loadEnvironmentAndArgs_help_witness :
  @loadEnvironmentAndArgs outsideProject (Some "greet") helpRequested
    ["--loud"; "world"] =
  CliOk {| ea_env :=
             {| env := coreFields noNetworksConfig helpRequested
                         {["help" := SimpleTaskDefinition
                                       (mkTask "help" [] [] returnUndefined);
                           "greet" := greetTask]};
                _extenders := [] |};
           ea_taskName := "help";
           ea_taskArguments := {["task" := VStr "greet"]} |}.
Proof.
  refine (@loadEnvironmentAndArgs_help outsideProject "greet" helpRequested
            ["--loud"; "world"] _ greetTask eq_refl eq_refl eq_refl _ eq_refl).
  discriminate.
Defined.

Lemma loadEnvironmentAndArgs_outside_project_witness :
  @loadEnvironmentAndArgs outsideProject (Some "greet") defaultNetworkArgs
    ["world"] =
  CliThrow (GENERAL_NOT_INSIDE_PROJECT "greet").
Proof.
  refine (@loadEnvironmentAndArgs_outside_project outsideProject "greet"
            defaultNetworkArgs ["world"] _ greetTask eq_refl eq_refl eq_refl
            _).
  right. repeat split.
Defined.

(** ** Resolving the configuration: the fields of the result *)

Lemma includes_elem_of l k : includes l k = true <-> k ∈ l.
Proof.
  unfold includes. induction l as [|x l IH]; simpl.
  - split; [done|]. by intros ?%elem_of_nil.
  - rewrite orb_true_iff, IH, elem_of_cons, String.eqb_eq. tauto.
Qed.

(** The paths object has, under each name, the resolved path of that name
    as a string, and nothing else. *)
Lemma obj_lookup_path_entries (paths : gmap string string) keys k :
  obj_lookup
    (omap (fun k => (fun p => (k, VStr p)) <$> paths !! k) keys) k =
  if bool_decide (k ∈ keys) then VStr <$> paths !! k else None.
Proof.
  induction keys as [|k' keys IH]; [done|]. cbn [omap list_omap].
  destruct (decide (k' = k)) as [->|Hne].
  - rewrite bool_decide_eq_true_2 by apply list_elem_of_here.
    destruct (paths !! k) as [q|] eqn:Hq; cbn.
    + by rewrite String.eqb_refl.
    + rewrite IH. by destruct (bool_decide (k ∈ keys)).
  - assert (bool_decide (k ∈ k' :: keys) = bool_decide (k ∈ keys)) as ->.
    { apply bool_decide_ext. rewrite elem_of_cons.
      split; [intros [?|?]; [congruence|done] | by right]. }
    destruct (paths !! k') as [q|]; cbn.
    + by apply String.eqb_neq in Hne as ->.
    + done.
Qed.

Lemma userPathsOf_keys userConfig k :
  k ∉ userPathKeys userConfig ->
  default ∅ (userPathsOf userConfig) !! k = None.
Proof.
  unfold userPathKeys, userPathsOf.
  destruct (obj_get (own_properties userConfig) "paths"); try done.
  intros Hk. cbn [default from_option id]. unfold fromEntries.
  by rewrite foldl_insert_entry_other.
Qed.

Section ResolveConfigFields.

Context `{PathModule}.

(** X14: for a user configuration that is an object whose [paths], if
    declared, is an object of strings, and without extenders: the resolved
    configuration carries every property of the merged configuration other
    than [paths] and [networks] as the merge has it; when no config file
    path is given its [paths] is [undefined], also where the user declares
    paths; otherwise its [paths] is an object that has, under each name,
    the resolved path of that name and nothing else. *)
Theorem resolveConfig_fields userConfigPath defaultConfig userConfig :
  declaredPathsTyped userConfig = true ->
  exists resolved,
    resolveConfig userConfigPath defaultConfig userConfig [] = Ok resolved /\
    (forall k,
       k <> "paths" -> k <> "networks" ->
       obj_lookup resolved k =
       obj_lookup
         (own_properties
            (mergeUserAndDefaultConfigs defaultConfig userConfig)) k) /\
    match userConfigPath with
    | None => obj_lookup resolved "paths" = Some VUndefined
    | Some userConfigPath =>
        exists fields,
          obj_lookup resolved "paths" = Some (VObj fields) /\
          forall k,
            obj_lookup fields k =
            VStr <$> resolveProjectPaths userConfigPath
                       (userPathsOf userConfig) !! k
    end.
Proof.
  intros _. unfold resolveConfig. eexists. split; [reflexivity|].
  unfold resolvedLiteral. split.
  - intros k Hpaths Hnetworks.
    rewrite obj_lookup_set_ne by done. by rewrite obj_lookup_set_ne.
  - rewrite obj_lookup_set_ne by discriminate. rewrite obj_lookup_set_eq.
    destruct userConfigPath as [userConfigPath|]; [|done].
    eexists. split; [reflexivity|]. intros k.
    rewrite obj_lookup_path_entries. case_bool_decide as Hk; [done|].
    rewrite elem_of_app, list_elem_of_filter in Hk.
    assert (Huser : k ∉ userPathKeys userConfig) by tauto.
    assert (Hfixed : k ∉ fixedPathKeys).
    { intros Hin. apply Hk. right. split; [|done].
      destruct (includes (userPathKeys userConfig) k) eqn:Hinc; [|done].
      by apply includes_elem_of in Hinc. }
    change (resolveProjectPaths userConfigPath (userPathsOf userConfig))
      with (resolveProjectPaths userConfigPath
              (Some (default ∅ (userPathsOf userConfig)))).
    rewrite resolveProjectPaths_lookup. cbv zeta.
    unfold fixedPathKeys in Hfixed.
    repeat (destruct (decide (_ = k)) as [<-|?];
            [exfalso; apply Hfixed;
             repeat first [apply list_elem_of_here
                          |apply list_elem_of_further]|]).
    by rewrite (userPathsOf_keys _ _ Huser).
Qed.

End ResolveConfigFields.

Lemma resolveConfig_fields_witness :
  exists resolved,
    @resolveConfig plainPaths (Some "/proj/cfg.js") (VObj [])
      userConfigWithPaths [] = Ok resolved /\
    resolved =
      [("paths",
        VObj [("deploy", VStr "/proj/sub/out"); ("root", VStr "/proj/sub");
              ("configFile", VStr "/proj/cfg.js");
              ("sources", VStr "/proj/sub/contracts");
              ("cache", VStr "/proj/sub/cache");
              ("artifacts", VStr "/proj/sub/artifacts");
              ("tests", VStr "/proj/sub/test")]);
       ("timeout", VNum 5); ("networks", VObj [])] /\
    obj_lookup resolved "timeout" = Some (VNum 5).
Proof.
  destruct (@resolveConfig_fields plainPaths (Some "/proj/cfg.js") (VObj [])
              userConfigWithPaths eq_refl) as (resolved & Hres & Hkeep & _).
  exists resolved. split; [exact Hres|]. split.
  - assert (Ok resolved =
            Ok [("paths",
                 VObj [("deploy", VStr "/proj/sub/out");
                       ("root", VStr "/proj/sub");
                       ("configFile", VStr "/proj/cfg.js");
                       ("sources", VStr "/proj/sub/contracts");
                       ("cache", VStr "/proj/sub/cache");
                       ("artifacts", VStr "/proj/sub/artifacts");
                       ("tests", VStr "/proj/sub/test")]);
                ("timeout", VNum 5); ("networks", VObj [])]) as Hsame
      by (rewrite <- Hres; vm_compute; reflexivity).
    by injection Hsame.
  - rewrite Hkeep by discriminate. reflexivity.
Defined.

(** ** Argument resolution: provided values *)

(** X22: a value that is provided (anything but [undefined], [null]
    included) is never replaced: resolving it either yields that very value
    or throws, whether the parameter is optional or not; without a
    validator it always resolves, and a parameter that is not variadic
    hands the value itself to its validator, once, under the parameter's
    name. *)
Theorem resolveArgument_provided paramDefinition v :
  is_undefined v = false ->
  (forall r, _resolveArgument paramDefinition v = Ok r -> r = v) /\
  ((type paramDefinition = None \/
    exists ty, type paramDefinition = Some ty /\ validate ty = None) ->
   _resolveArgument paramDefinition v = Ok v) /\
  (forall ty check,
     type paramDefinition = Some ty -> validate ty = Some check ->
     isVariadic paramDefinition = false ->
     _resolveArgument paramDefinition v =
     match check (name paramDefinition) v with
     | Ok _ => Ok v
     | Throw e => Throw e
     end).
Proof.
  intros Hdef. split; [|split].
  - intros r. by apply resolveArgument_present.
  - unfold _resolveArgument, _checkTypeValidation. rewrite Hdef.
    by intros [->|(ty & -> & ->)].
  - intros ty check Hty Hcheck Hvar.
    unfold _resolveArgument, _checkTypeValidation.
    rewrite Hdef, Hty, Hcheck, Hvar. cbn [iterate validate_each].
    by destruct (check (name paramDefinition) v).
Qed.

Lemma resolveArgument_provided_witness :
  _resolveArgument whoParam VNull = Ok VNull /\
  _resolveArgument retriesParam (VArr [VStr "x"]) =
    Throw (Thrown (VStr "retries")).
Proof.
  split.
  - apply (proj1 (proj2 (resolveArgument_provided whoParam VNull eq_refl))).
    by left.
  - exact (proj2 (proj2 (resolveArgument_provided retriesParam
                           (VArr [VStr "x"]) eq_refl))
             {| validate := Some stringsOnly |} stringsOnly
             eq_refl eq_refl eq_refl).
Defined.

(** ** Ambient exposure: a property the action adds *)

(** X23: the restore enumerates the environment as the action left it.  A
    name (other than [__proto__]) that was no property of the environment
    when the injection ran, and is one, not blacklisted, when the action
    ends, is written in the global object with what the empty record of
    previous values reads under that name: [undefined], or, for a name that
    every object inherits, the inherited value; whatever that name held in
    the global object. *)
Theorem runTaskDefinition_added_property taskDefinition taskArguments st k :
  let ran := actionRun taskDefinition taskArguments st in
  let after := (_runTaskDefinition taskDefinition taskArguments st).2 in
  k ∉ dom (this st) ->
  k ∈ dom (this ran.2) ->
  includes _BLACKLISTED_PROPERTIES k = false ->
  k <> "runSuper" ->
  k <> "__proto__" ->
  global after !! k = Some (default VUndefined (Object_prototype k)).
Proof.
  intros ran after Hbefore Hafter Hbl Hne _. subst after.
  rewrite runTaskDefinition_actionRun. fold ran.
  cbn [fst snd set_global injectToGlobal restorePrevious global].
  rewrite lookup_insert_ne by done.
  rewrite foldl_restoreEntry, Hbl.
  rewrite bool_decide_eq_true_2 by by apply elem_of_keys_map_to_list.
  cbn [andb negb]. f_equal. unfold jsget.
  destruct (foldl_injectEntry_skipped _BLACKLISTED_PROPERTIES
              (map_to_list (this st))
              (∅, <["runSuper" :=
                     VRunSuper (taskName (fieldsOf taskDefinition))
                       (isDefined
                          (runSuperFunction taskDefinition taskArguments))]>
                    (global st)) k) as [Hprev _].
  { left. by rewrite elem_of_keys_map_to_list. }
  cbn [fst] in Hprev. cbn [this set_global]. rewrite Hprev.
  by rewrite lookup_empty.
Qed.

Lemma runTaskDefinition_added_property_witness :
  global (_runTaskDefinition
            (SimpleTaskDefinition (mkTask "add" [] [] addsProperty))
            ∅ sampleState).2 !! "deployer" = Some VUndefined /\
  global (_runTaskDefinition
            (SimpleTaskDefinition (mkTask "add" [] [] addsToString))
            ∅ sampleState).2 !! "toString"
    = Some (VFun "Object.prototype.toString").
Proof.
  split.
  - apply (runTaskDefinition_added_property
             (SimpleTaskDefinition (mkTask "add" [] [] addsProperty))
             ∅ sampleState "deployer").
    + apply (bool_decide_unpack _). vm_compute. exact I.
    + apply (bool_decide_unpack _). vm_compute. exact I.
    + reflexivity.
    + discriminate.
    + discriminate.
  - apply (runTaskDefinition_added_property
             (SimpleTaskDefinition (mkTask "add" [] [] addsToString))
             ∅ sampleState "toString").
    + apply (bool_decide_unpack _). vm_compute. exact I.
    + apply (bool_decide_unpack _). vm_compute. exact I.
    + reflexivity.
    + discriminate.
    + discriminate.
Defined.
